(** * A shallow embedding of the Sudoku board of [1_sudoku/sudoku/board.py]

    The Python class [Board] is modelled method by method.  Python strings
    are lists of characters, a [dict] is an association list kept in
    insertion order (the order [keys()] iterates in), a [set] is a
    duplicate-free list, and an exception is a value of [result]. *)

From Stdlib Require String.
From Stdlib Require Import List Ascii Bool Arith ZArith Lia Permutation.
Import ListNotations String.StringSyntax.
Open Scope string_scope.
Open Scope list_scope.

(** ** Python strings *)

Abbreviation pystr := (list ascii) (only parsing).

(** A string literal of the source. *)
Definition py (s : String.string) : pystr := String.list_ascii_of_string s.

Fixpoint str_eqb (s t : pystr) : bool :=
  match s, t with
  | [], [] => true
  | c :: s', d :: t' => Ascii.eqb c d && str_eqb s' t'
  | _, _ => false
  end.

(** [x in xs] for a list (or set) of strings. *)
Definition str_mem (x : pystr) (xs : list pystr) : bool :=
  existsb (str_eqb x) xs.

(** [c in s] where [c] is a one-character string. *)
Definition chr_mem (c : ascii) (s : list ascii) : bool :=
  existsb (Ascii.eqb c) s.

Fixpoint starts_with (old s : pystr) : bool :=
  match old, s with
  | [], _ => true
  | c :: old', d :: s' => Ascii.eqb c d && starts_with old' s'
  | _ :: _, [] => false
  end.

(** [s.replace(old, '')]: every non-overlapping occurrence of [old], found
    from the left, is dropped.  [skip] counts the characters of the
    occurrence under the cursor that are still to be dropped.  With an empty
    [old] Python inserts the empty replacement between the characters, which
    leaves [s] as it is. *)
Fixpoint replace_from (old : pystr) (skip : nat) (s : pystr) : pystr :=
  match s with
  | [] => []
  | c :: s' =>
      match skip with
      | S k => replace_from old k s'
      | O =>
          match old with
          | [] => c :: replace_from old 0 s'
          | _ :: old' =>
              if starts_with old s
              then replace_from old (length old') s'
              else c :: replace_from old 0 s'
          end
      end
  end.

Definition replace (s old : pystr) : pystr := replace_from old 0 s.

(** [sub in s] *)
Fixpoint contains (s sub : pystr) : bool :=
  starts_with sub s ||
  match s with
  | [] => false
  | _ :: s' => contains s' sub
  end.

(** [set(list(s))]: the characters of [s], each once.  Python iterates a set
    in an order of its own; [strip_values_any_order] below shows that the one
    loop of the source that runs over such a set does not depend on it. *)
Fixpoint char_set (s : pystr) : list ascii :=
  match s with
  | [] => []
  | c :: s' => if chr_mem c s' then char_set s' else c :: char_set s'
  end.

(** [a.issubset(b)] for two sets of characters. *)
Definition chars_subset (a b : list ascii) : bool :=
  forallb (fun c => chr_mem c b) a.

(** [str(number)] for a one-digit [number]. *)
Definition str_of_digit (number : nat) : pystr := [ascii_of_nat (48 + number)].

(** [sorted(xs, key=key)]: stable, so elements of equal key keep their
    order. *)
Fixpoint insert_by {A} (key : A -> nat) (x : A) (xs : list A) : list A :=
  match xs with
  | [] => [x]
  | y :: ys => if key x <=? key y then x :: y :: ys else y :: insert_by key x ys
  end.

Definition sorted {A} (key : A -> nat) (xs : list A) : list A :=
  fold_right (insert_by key) [] xs.

(** ** Exceptions *)

Inductive exn := ValueError | KeyError | IndexError.

(** The outcome of a call: a value, a raised exception, or [OutOfFuel] when
    the iteration budget handed to a loop or a recursion is used up. *)
Inductive result (A : Type) :=
| Ok (a : A)
| Raise (e : exn)
| OutOfFuel.

Arguments Ok {A} a.
Arguments Raise {A} e.
Arguments OutOfFuel {A}.

Definition bind {A B} (m : result A) (k : A -> result B) : result B :=
  match m with
  | Ok a => k a
  | Raise e => Raise e
  | OutOfFuel => OutOfFuel
  end.

Notation "x <- m ;; k" := (bind m (fun x => k))
  (at level 61, m at next level, right associativity).

(** A [for] loop that threads the value [acc] through its body. *)
Fixpoint for_each {A S} (xs : list A) (body : S -> A -> result S) (acc : S)
  : result S :=
  match xs with
  | [] => Ok acc
  | x :: xs' => acc' <- body acc x ;; for_each xs' body acc'
  end.

(** A list comprehension [[f x for x in xs]] whose expression can raise. *)
Fixpoint map_r {A B} (f : A -> result B) (xs : list A) : result (list B) :=
  match xs with
  | [] => Ok []
  | x :: xs' => y <- f x ;; ys <- map_r f xs' ;; Ok (y :: ys)
  end.

(** A list comprehension [[x for x in xs if p x]] whose test can raise. *)
Fixpoint filter_r {A} (p : A -> result bool) (xs : list A) : result (list A) :=
  match xs with
  | [] => Ok []
  | x :: xs' =>
      b <- p x ;; ys <- filter_r p xs' ;; Ok (if b then x :: ys else ys)
  end.

(** ** Dictionaries *)

Definition dict (V : Type) := list (pystr * V).

Definition keys {V} (d : dict V) : list pystr := map fst d.

(** [d[k]] *)
Fixpoint getitem {V} (d : dict V) (k : pystr) : result V :=
  match d with
  | [] => Raise KeyError
  | (k', v) :: d' => if str_eqb k k' then Ok v else getitem d' k
  end.

(** [d[k] = v]: an existing key keeps its place, a new one goes last. *)
Fixpoint setitem {V} (d : dict V) (k : pystr) (v : V) : dict V :=
  match d with
  | [] => [(k, v)]
  | (k', v') :: d' =>
      if str_eqb k k' then (k', v) :: d' else (k', v') :: setitem d' k v
  end.

(** [dict(pairs)] *)
Definition dict_of {V} (pairs : list (pystr * V)) : dict V :=
  fold_left (fun d kv => setitem d (fst kv) (snd kv)) pairs [].

(** ** Sets of strings, as duplicate-free lists *)

Fixpoint set_of (xs : list pystr) : list pystr :=
  match xs with
  | [] => []
  | x :: xs' => if str_mem x xs' then set_of xs' else x :: set_of xs'
  end.

Definition set_minus (xs ys : list pystr) : list pystr :=
  filter (fun x => negb (str_mem x ys)) xs.

Definition set_subset (xs ys : list pystr) : bool :=
  forallb (fun x => str_mem x ys) xs.

Definition set_eqb (xs ys : list pystr) : bool :=
  set_subset xs ys && set_subset ys xs.

(** ** The board *)

Definition BoardState := dict pystr.
Definition Unit := list pystr.

Module Board.

Definition _values : pystr := py "123456789".
Definition _rows : pystr := py "ABCDEFGHI".
Definition _row_squares : list pystr := [py "ABC"; py "DEF"; py "GHI"].
Definition _cols : pystr := py "123456789".
Definition _col_squares : list pystr := [py "123"; py "456"; py "789"].

Definition cross (x_axis y_axis : pystr) : list pystr :=
  flat_map (fun x_val => map (fun y_val => [x_val; y_val]) y_axis) x_axis.

Definition boxes : list pystr := cross _rows _cols.

Definition num_boxes : nat := length _rows * length _cols.

Definition _row_units : list Unit :=
  map (fun r => cross [r] _cols) _rows.

Definition _column_units : list Unit :=
  map (fun c => cross _rows [c]) _cols.

(** [int(vl)] for a digit character. *)
Definition int_of_digit (vl : ascii) : nat := nat_of_ascii vl - 48.

(** [s[i]] at an index that is in range wherever the source uses it. *)
Definition char_at (s : pystr) (i : nat) : ascii := nth i s " "%char.

Definition _diagonal_units : list Unit :=
  let unit_1 :=
    map (fun vl => [char_at _rows (int_of_digit vl - 1); vl]) _values in
  let unit_2 :=
    map (fun vl => [char_at (rev _rows) (int_of_digit vl - 1); vl]) _values in
  [unit_1; unit_2].

Definition _square_units : list Unit :=
  flat_map (fun rs => map (fun cs => cross rs cs) _col_squares) _row_squares.

(** An instance is its [diagonal_mode] flag.  The fields [_all_units],
    [_units] and [_peers] are caches: each is filled on first use with a
    value that depends on the flag alone, so a method that reads one is a
    function of the flag. *)
Definition all_units (diagonal_mode : bool) : list Unit :=
  let all := _row_units ++ _column_units ++ _square_units in
  if diagonal_mode then all ++ _diagonal_units else all.

Definition generate_units (diagonal_mode : bool) : dict (list Unit) :=
  let all_u := all_units diagonal_mode in
  dict_of
    (map (fun box => (box, filter (fun unit => str_mem box unit) all_u))
         boxes).

(** The cache [self._units], computed once for each flag. *)
Definition _units_plain : dict (list Unit) :=
  Eval vm_compute in generate_units false.

Definition _units_diagonal : dict (list Unit) :=
  Eval vm_compute in generate_units true.

Definition _units (diagonal_mode : bool) : dict (list Unit) :=
  if diagonal_mode then _units_diagonal else _units_plain.

Definition units (diagonal_mode : bool) (box : pystr) : result (list Unit) :=
  getitem (_units diagonal_mode) box.

Definition generate_peers (diagonal_mode : bool)
  : result (dict (list pystr)) :=
  pairs <- map_r (fun bx =>
                    us <- units diagonal_mode bx ;;
                    Ok (bx, set_minus (set_of (concat us)) [bx]))
                 boxes ;;
  Ok (dict_of pairs).

(** The cache [self._peers], computed once for each flag. *)
Definition _peers_plain : result (dict (list pystr)) :=
  Eval vm_compute in generate_peers false.

Definition _peers_diagonal : result (dict (list pystr)) :=
  Eval vm_compute in generate_peers true.

Definition _peers (diagonal_mode : bool) : result (dict (list pystr)) :=
  if diagonal_mode then _peers_diagonal else _peers_plain.

Definition peers (diagonal_mode : bool) (box : pystr)
  : result (list pystr) :=
  tbl <- _peers diagonal_mode ;; getitem tbl box.

(** *** The codec *)

Definition grid_values (board_string : pystr) : result BoardState :=
  if negb (length board_string =? num_boxes) then Raise ValueError
  else
    for_each (combine (seq 0 (length board_string)) board_string)
      (fun board_dict iv =>
         let '(index, value) := iv in
         let value := if Ascii.eqb value "."%char then _values else [value] in
         match nth_error boxes index with
         | Some box => Ok (setitem board_dict box value)
         | None => Raise IndexError
         end)
      [].

Definition board_to_str (board_dict : BoardState) : result pystr :=
  string <- for_each boxes
              (fun string key =>
                 v <- getitem board_dict key ;; Ok (string ++ v ++ py ","))
              [] ;;
  Ok (removelast string).

(** *** Propagation *)

(** The keys whose entry satisfies [p], in the order of [keys()].  The
    source reads the entry as [board_dict[box]] for [box] in
    [board_dict.keys()], which is the entry stored with the key. *)
Definition keys_where (p : pystr -> bool) (board_dict : BoardState)
  : list pystr :=
  map fst (filter (fun kv => p (snd kv)) board_dict).

(** [peers(box)] is a set; the loop over it ends in the same state whatever
    order it takes ([eliminate_peers_any_order]). *)
Definition eliminate (diagonal_mode : bool) (board_dict : BoardState)
  : result BoardState :=
  let solved_values := keys_where (fun v => length v =? 1) board_dict in
  for_each solved_values
    (fun board_dict box =>
       digit <- getitem board_dict box ;;
       ps <- peers diagonal_mode box ;;
       for_each ps
         (fun board_dict peer =>
            v <- getitem board_dict peer ;;
            Ok (setitem board_dict peer (replace v digit)))
         board_dict)
    board_dict.

Definition only_choice (diagonal_mode : bool) (board_dict : BoardState)
  : result BoardState :=
  for_each (all_units diagonal_mode)
    (fun board_dict unit =>
       for_each (seq 1 9)
         (fun board_dict number =>
            possible_boxes <-
              filter_r (fun box =>
                          v <- getitem board_dict box ;;
                          Ok (contains v (str_of_digit number)))
                       unit ;;
            match possible_boxes with
            | [box] => Ok (setitem board_dict box (str_of_digit number))
            | _ => Ok board_dict
            end)
         board_dict)
    board_dict.

Definition num_solved_boxes (board_dict : BoardState) : nat :=
  length (keys_where (fun v => length v =? 1) board_dict).

Definition sorted_box_possibilities (board_dict : BoardState) : list pystr :=
  map fst
    (sorted (fun kv => length (snd kv))
            (filter (fun kv => 1 <? length (snd kv)) board_dict)).

(** [reduce_puzzle] with its [while] loop bounded by [fuel] passes; [None]
    is the source's [None]. *)
Fixpoint reduce_puzzle (diagonal_mode : bool) (fuel : nat)
  (board_dict : BoardState) : result (option BoardState) :=
  match fuel with
  | O => OutOfFuel
  | S fuel' =>
      let solved_values_before := num_solved_boxes board_dict in
      board_dict <- eliminate diagonal_mode board_dict ;;
      board_dict <- only_choice diagonal_mode board_dict ;;
      let solved_values_after := num_solved_boxes board_dict in
      let stalled := solved_values_before =? solved_values_after in
      if solved_values_after =? 0 then Ok None
      else if stalled then Ok (Some board_dict)
      else reduce_puzzle diagonal_mode fuel' board_dict
  end.

(** *** Validation and search *)

Definition complete_unit : list pystr := set_of (map (fun c => [c]) _values).

Fixpoint validate_units (units : list Unit) (board_dict : BoardState)
  : result bool :=
  match units with
  | [] => Ok true
  | unit :: rest =>
      unit_values <- map_r (getitem board_dict) unit ;;
      let unit_set := set_of unit_values in
      if negb (set_eqb unit_set complete_unit) then Ok false
      else validate_units rest board_dict
  end.

Definition validate (diagonal_mode : bool) (board_dict : BoardState)
  : result bool :=
  validate_units (all_units diagonal_mode) board_dict.

(** The loop over [choices] of [search]; [recurse] is the recursive call. *)
Fixpoint try_choices (recurse : BoardState -> result (option BoardState))
  (reduced : BoardState) (smallest_box : pystr) (choices : list ascii)
  : result (option BoardState) :=
  match choices with
  | [] => Ok None
  | combination :: rest =>
      let board_copy := setitem reduced smallest_box [combination] in
      result <- recurse board_copy ;;
      match result with
      | Some r => Ok (Some r)
      | None => try_choices recurse reduced smallest_box rest
      end
  end.

(** [search], with [fuel] bounding the depth of the recursion and the
    passes of each [reduce_puzzle] loop. *)
Fixpoint search (diagonal_mode : bool) (fuel : nat) (board_dict : BoardState)
  : result (option BoardState) :=
  match fuel with
  | O => OutOfFuel
  | S fuel' =>
      reduced <- reduce_puzzle diagonal_mode fuel board_dict ;;
      match reduced with
      | None => Ok None
      | Some reduced =>
          if num_solved_boxes reduced =? num_boxes then
            valid <- validate diagonal_mode reduced ;;
            if valid then Ok (Some reduced) else Ok None
          else
            match sorted_box_possibilities reduced with
            | smallest_box :: _ =>
                choices <- getitem reduced smallest_box ;;
                try_choices (search diagonal_mode fuel')
                            reduced smallest_box choices
            | [] => Ok None
            end
      end
  end.

(** *** Naked twins and naked subsets *)

(** The loop [for value in values] of [_remove_values_in_boxes]. *)
Definition strip_values (values : list ascii) (new_set : pystr) : pystr :=
  fold_left
    (fun new_set value =>
       if 1 <? length new_set then replace new_set [value] else new_set)
    values new_set.

Definition _remove_values_in_boxes (board_dict : BoardState)
  (values : list ascii) (boxes : list pystr) : result BoardState :=
  for_each boxes
    (fun board_dict box =>
       new_set <- getitem board_dict box ;;
       if negb (chars_subset (char_set new_set) values) then
         let stripped := strip_values values new_set in
         if negb (str_eqb new_set stripped)
         then Ok (setitem board_dict box stripped)
         else Ok board_dict
       else Ok board_dict)
    board_dict.

(** The body of the loop over the units of [box] in [naked_twins]. *)
Definition naked_twins_unit (options : pystr) (board_dict : BoardState)
  (unit : Unit) : result BoardState :=
  naked_twins <- filter_r (fun box =>
                             v <- getitem board_dict box ;;
                             Ok (str_eqb v options))
                          unit ;;
  if length naked_twins =? 2 then
    let boxes := filter (fun bx => negb (str_mem bx naked_twins)) unit in
    let values := char_set options in
    _remove_values_in_boxes board_dict values boxes
  else Ok board_dict.

(** The body of the loop over [two_value_boxes] in [naked_twins]. *)
Definition naked_twins_box (diagonal_mode : bool) (board_dict : BoardState)
  (box : pystr) : result BoardState :=
  options <- getitem board_dict box ;;
  us <- units diagonal_mode box ;;
  for_each us (naked_twins_unit options) board_dict.

Definition naked_twins (diagonal_mode : bool) (board_dict : BoardState)
  : result BoardState :=
  let two_value_boxes := keys_where (fun v => length v =? 2) board_dict in
  for_each two_value_boxes (naked_twins_box diagonal_mode) board_dict.

(** The body of the loop over the units of [leader_box] in [naked_multi]. *)
Definition naked_multi_unit (size : Z) (leader_box : pystr)
  (options : list ascii) (board_dict : BoardState) (unit : Unit)
  : result BoardState :=
  subsets <-
    for_each (filter (fun box => negb (str_eqb box leader_box)) unit)
      (fun subsets box =>
         v <- getitem board_dict box ;;
         let subset := char_set v in
         if (1 <? length subset) && chars_subset subset options
         then Ok (subsets ++ [subset])
         else Ok subsets)
      [] ;;
  if (Z.of_nat (length subsets) =? size - 1)%Z
  then _remove_values_in_boxes board_dict options unit
  else Ok board_dict.

Definition naked_multi_box (diagonal_mode : bool) (size : Z)
  (board_dict : BoardState) (leader_box : pystr) : result BoardState :=
  v <- getitem board_dict leader_box ;;
  let options := char_set v in
  us <- units diagonal_mode leader_box ;;
  for_each us (naked_multi_unit size leader_box options) board_dict.

Definition naked_multi (diagonal_mode : bool) (board_dict : BoardState)
  (size : Z) : result BoardState :=
  let size_value_boxes :=
    keys_where (fun v => (Z.of_nat (length v) =? size)%Z) board_dict in
  for_each size_value_boxes (naked_multi_box diagonal_mode size) board_dict.

End Board.

(** * Vocabulary of the statements *)

(** ** Strings and lists *)

(** What survives [replace] was there before, and nothing is added. *)
Definition shrinks (v' v : pystr) : Prop :=
  incl v' v /\ length v' <= length v.

(** [len(set(xs)) == len(xs)] *)
Fixpoint distinct (xs : list pystr) : bool :=
  match xs with
  | [] => true
  | x :: xs' => negb (str_mem x xs') && distinct xs'
  end.

(** [sep.join(tokens)] *)
Fixpoint join (sep : pystr) (tokens : list pystr) : pystr :=
  match tokens with
  | [] => []
  | t :: rest =>
      match rest with
      | [] => t
      | _ :: _ => t ++ sep ++ join sep rest
      end
  end.

(** ** Topology *)

(** The number of diagonal units a box lies on. *)
Definition diagonals_through (box : pystr) : nat :=
  length (filter (str_mem box) Board._diagonal_units).

(** A unit has nine boxes of the board, each once. *)
Definition unit_ok (u : Unit) : bool :=
  distinct u && set_subset u Board.boxes && (length u =? 9).

Definition row_A : Unit := Board.cross (py "A") Board._cols.
Definition row_D : Unit := Board.cross (py "D") Board._cols.

(** ** States *)

(** A dictionary whose keys are the 81 boxes, each once, in any order. *)
Definition board_ok (board_dict : BoardState) : bool :=
  distinct (keys board_dict) && set_eqb (keys board_dict) Board.boxes.

(** The entry of a box, empty when the box is missing. *)
Definition value (board_dict : BoardState) (box : pystr) : pystr :=
  match getitem board_dict box with
  | Ok v => v
  | _ => []
  end.

(** Every box holds exactly one character. *)
Definition fully_assigned (board_dict : BoardState) : bool :=
  forallb (fun box =>
             match getitem board_dict box with
             | Ok [_] => true
             | _ => false
             end) Board.boxes.

(** The character of a solved box. *)
Definition cell_char (board_dict : BoardState) (box : pystr) : ascii :=
  match getitem board_dict box with
  | Ok (c :: _) => c
  | _ => " "%char
  end.

(** A state holds a contradiction when some cell has no candidate left. *)
Definition has_empty_cell (board_dict : BoardState) : bool :=
  existsb (fun kv => length (snd kv) =? 0) board_dict.

Definition nonempty_cells (board_dict : BoardState) : Prop :=
  forall k v, getitem board_dict k = Ok v -> v <> [].

(** [after] has the keys of [before], and every entry of [after] is what is
    left of the entry of [before]. *)
Definition narrows (before after : BoardState) : Prop :=
  keys after = keys before /\
  forall k v, getitem before k = Ok v ->
    exists v', getitem after k = Ok v' /\ shrinks v' v.

(** [after] is a narrowing of [before] that has emptied no cell. *)
Definition keeps (before after : BoardState) : Prop :=
  narrows before after /\ (nonempty_cells before -> nonempty_cells after).

(** The sum of the lengths of the entries. *)
Definition total_length (board_dict : BoardState) : nat :=
  list_sum (map (fun kv => length (snd kv)) board_dict).

(** ** The codec *)

(** The entry [grid_values] stores for one character of the puzzle. *)
Definition cell_of_char (value : ascii) : pystr :=
  if Ascii.eqb value "."%char then Board._values else [value].

(** The body of the loop of [grid_values]. *)
Definition grid_values_body (board_dict : BoardState) (iv : nat * ascii)
  : result BoardState :=
  let '(index, value) := iv in
  let value :=
    if Ascii.eqb value "."%char then Board._values else [value] in
  match nth_error Board.boxes index with
  | Some box => Ok (setitem board_dict box value)
  | None => Raise IndexError
  end.

(** ** Propagation *)

(** One pass of the loop of [reduce_puzzle]. *)
Definition propagate (dm : bool) (board_dict : BoardState)
  : result BoardState :=
  board_dict <- Board.eliminate dm board_dict ;;
  Board.only_choice dm board_dict.

(** ** Naked twins *)

(** What [_remove_values_in_boxes] makes of one entry it visits. *)
Definition stripped (values : list ascii) (v : pystr) : pystr :=
  if negb (chars_subset (char_set v) values)
  then Board.strip_values values v
  else v.

(** The twins of a unit, as [naked_twins] collects them. *)
Definition twins_of (options : pystr) (a : BoardState) (unit : Unit)
  : list pystr :=
  filter (fun box => str_eqb (value a box) options) unit.

(** An entry that holds a candidate outside [options] and none of
    [options]. *)
Definition clean (options v : pystr) : Prop :=
  (exists x, In x v /\ ~ In x options) /\
  (forall x, In x options -> ~ In x v).

(** How an entry [v] can look after some turns of the loop over the units of
    a box whose entry is [options]. *)
Definition twin_step (options v v' : pystr) : Prop :=
  v' = v \/ (v <> options /\ clean options v').

Definition twin_steps (options : pystr) (before after : BoardState) : Prop :=
  forall k v, getitem before k = Ok v ->
    exists v', getitem after k = Ok v' /\ twin_step options v v'.

(** ** Sample grids and states *)

(** A puzzle that propagation alone solves, and its solution. *)
Definition easy_grid : pystr :=
  py "..3.2.6..9..3.5..1..18.64....81.29..7.......8..67.82....26.95..8..2.3..9..5.1.3..".

Definition solved_grid : pystr :=
  py "483921657967345821251876493548132976729564138136798245372689514814253769695417382".

(** Two 1s in row A, everything else unknown. *)
Definition contradictory_grid : pystr := py "11" ++ repeat "."%char 79.

Definition blank_grid : pystr := repeat "."%char 81.

Definition easy_board : BoardState :=
  Eval vm_compute in combine Board.boxes (map cell_of_char easy_grid).

Definition solved_board : BoardState :=
  Eval vm_compute in combine Board.boxes (map cell_of_char solved_grid).

Definition contradictory_board : BoardState :=
  Eval vm_compute in combine Board.boxes (map cell_of_char contradictory_grid).

Definition blank_board : BoardState :=
  Eval vm_compute in combine Board.boxes (map cell_of_char blank_grid).

(** [contradictory_board] after one pass of propagation. *)
Definition contradictory_after_pass : BoardState :=
  Eval vm_compute in
    match propagate false contradictory_board with
    | Ok board_dict => board_dict
    | _ => []
    end.

(** [A1] and [A2] hold [12], everything else is open. *)
Definition pair_board : BoardState :=
  Eval vm_compute in
    setitem (setitem blank_board (py "A1") (py "12")) (py "A2") (py "12").

(** As [pair_board], with [A3] solved to [1]. *)
Definition pair_and_single_board : BoardState :=
  Eval vm_compute in setitem pair_board (py "A3") (py "1").

(** As [pair_board], with [A3] holding [12] as well. *)
Definition triple_board : BoardState :=
  Eval vm_compute in setitem pair_board (py "A3") (py "12").

(** [D1] and [D2] hold [12] in row D, [A1] and [B1] hold [13] in column 1. *)
Definition crossing_pairs_board : BoardState :=
  Eval vm_compute in
    setitem (setitem (setitem (setitem blank_board
      (py "A1") (py "13")) (py "B1") (py "13"))
      (py "D1") (py "12")) (py "D2") (py "12").

(** ** Further vocabulary *)

(** What [only_choice] can make of an entry [v]: nothing, or one of its
    digits when it has several candidates. *)
Definition chosen (v v' : pystr) : Prop :=
  v' = v \/
  (1 < length v /\ exists d, v' = [d] /\ In d v /\ In d Board._values).

(** One turn of the loop of [eliminate], with the peers of the box handed
    over by [peers_of]; the loop over the peers runs in the order of the
    list it is given. *)
Definition eliminate_turn (peers_of : pystr -> result (list pystr))
  (board_dict : BoardState) (box : pystr) : result BoardState :=
  digit <- getitem board_dict box ;;
  ps <- peers_of box ;;
  for_each ps
    (fun board_dict peer =>
       v <- getitem board_dict peer ;;
       Ok (setitem board_dict peer (replace v digit)))
    board_dict.

(** [eliminate] over [peers_of]. *)
Definition eliminate_with (peers_of : pystr -> result (list pystr))
  (board_dict : BoardState) : result BoardState :=
  let solved_values := Board.keys_where (fun v => length v =? 1) board_dict in
  for_each solved_values (eliminate_turn peers_of) board_dict.

(** [after] is a narrowing of [before] that has emptied no cell and has left
    the cells with at most one candidate as they were. *)
Definition gently (before after : BoardState) : Prop :=
  keeps before after /\
  forall k v, getitem before k = Ok v -> length v <= 1 ->
              getitem after k = Ok v.

(** No solved box has a peer solved to the same value. *)
Definition givens_consistent (dm : bool) (board_dict : BoardState) : bool :=
  forallb
    (fun kv =>
       if length (snd kv) =? 1 then
         match Board.peers dm (fst kv) with
         | Ok ps =>
             forallb (fun p => negb (str_eqb (value board_dict p) (snd kv)))
                     ps
         | _ => true
         end
       else true)
    board_dict.

(** A completed diagonal puzzle. *)
Definition diagonal_solved_grid : pystr :=
  py "267945381853716249491823576576438192384192657129657438642379815935281764718564923".

Definition diagonal_solved_board : BoardState :=
  Eval vm_compute in
    combine Board.boxes (map cell_of_char diagonal_solved_grid).

(** * The caches hold what the methods compute *)

Lemma units_cache_ok dm : Board._units dm = Board.generate_units dm.
Proof. destruct dm; vm_compute; reflexivity. Qed.

Lemma peers_cache_ok dm : Board._peers dm = Board.generate_peers dm.
Proof. destruct dm; vm_compute; reflexivity. Qed.


(** * Facts about strings *)

Section Strings.

Lemma str_eqb_eq (s t : pystr) : str_eqb s t = true <-> s = t.
Proof.
  revert t; induction s as [|c s IH]; intros [|d t]; simpl;
    try (split; [discriminate | congruence]); try tauto.
  rewrite andb_true_iff, Ascii.eqb_eq, IH.
  split; [intros [-> ->]; reflexivity | intros [= -> ->]; auto].
Qed.

Lemma str_eqb_refl (s : pystr) : str_eqb s s = true.
Proof. now apply str_eqb_eq. Qed.

Lemma str_eqb_neq (s t : pystr) : str_eqb s t = false <-> s <> t.
Proof.
  rewrite <- str_eqb_eq. destruct (str_eqb s t); split; congruence.
Qed.

Lemma str_mem_In (x : pystr) (xs : list pystr) :
  str_mem x xs = true <-> In x xs.
Proof.
  unfold str_mem. rewrite existsb_exists. split.
  - intros (y & Hy & E). apply str_eqb_eq in E. now subst.
  - intros H. exists x. split; [assumption | apply str_eqb_refl].
Qed.

Lemma str_mem_not_In (x : pystr) (xs : list pystr) :
  str_mem x xs = false <-> ~ In x xs.
Proof.
  rewrite <- str_mem_In. destruct (str_mem x xs); split; congruence.
Qed.

Lemma chr_mem_In (c : ascii) (s : list ascii) : chr_mem c s = true <-> In c s.
Proof.
  unfold chr_mem. rewrite existsb_exists. split.
  - intros (y & Hy & E). apply Ascii.eqb_eq in E. now subst.
  - intros H. exists c. split; [assumption | apply Ascii.eqb_refl].
Qed.

Lemma chars_subset_incl (a b : list ascii) :
  chars_subset a b = true <-> incl a b.
Proof.
  unfold chars_subset, incl. rewrite forallb_forall.
  split; intros H c Hc; apply chr_mem_In; auto.
Qed.

Lemma char_set_In (c : ascii) (s : pystr) : In c (char_set s) <-> In c s.
Proof.
  induction s as [|d s IH]; simpl; [tauto|].
  destruct (chr_mem d s) eqn:E; simpl; rewrite IH.
  - apply chr_mem_In in E. split; [auto | intros [<- | H]; auto].
  - tauto.
Qed.

Lemma set_of_In (x : pystr) (xs : list pystr) : In x (set_of xs) <-> In x xs.
Proof.
  induction xs as [|y xs IH]; simpl; [tauto|].
  destruct (str_mem y xs) eqn:E; simpl; rewrite IH.
  - apply str_mem_In in E. split; [auto | intros [<- | H]; auto].
  - tauto.
Qed.

Lemma set_subset_incl (xs ys : list pystr) :
  set_subset xs ys = true <-> incl xs ys.
Proof.
  unfold set_subset, incl. rewrite forallb_forall.
  split; intros H c Hc; apply str_mem_In; auto.
Qed.

Lemma set_eqb_same_elements (xs ys : list pystr) :
  set_eqb xs ys = true <-> (forall x, In x xs <-> In x ys).
Proof.
  unfold set_eqb. rewrite andb_true_iff, !set_subset_incl. unfold incl.
  split; [intros [H1 H2] x; split; auto | intros H; split; intros x; apply H].
Qed.

Lemma shrinks_refl v : shrinks v v.
Proof. split; [apply incl_refl | lia]. Qed.

Lemma shrinks_trans v1 v2 v3 : shrinks v1 v2 -> shrinks v2 v3 -> shrinks v1 v3.
Proof.
  intros [I1 L1] [I2 L2]. split; [eapply incl_tran; eauto | lia].
Qed.

Lemma replace_from_shrinks old s : forall skip,
  shrinks (replace_from old skip s) s.
Proof.
  induction s as [|c s IH]; intros skip; simpl.
  - apply shrinks_refl.
  - assert (Hdrop : forall k, shrinks (replace_from old k s) (c :: s)).
    { intros k. destruct (IH k) as [I L]. split; [|simpl; lia].
      now apply incl_tl. }
    assert (Hkeep : shrinks (c :: replace_from old 0 s) (c :: s)).
    { destruct (IH 0) as [I L]. split; [|simpl; lia].
      apply incl_cons; [now left | now apply incl_tl]. }
    destruct skip; [|apply Hdrop].
    destruct old as [|o old']; [apply Hkeep|].
    destruct (starts_with (o :: old') (c :: s)); [apply Hdrop | apply Hkeep].
Qed.

Lemma replace_shrinks s old : shrinks (replace s old) s.
Proof. apply replace_from_shrinks. Qed.

(** Dropping a one-character string drops that character everywhere. *)
Lemma replace_single s c :
  replace s [c] = filter (fun d => negb (Ascii.eqb c d)) s.
Proof.
  unfold replace. induction s as [|d s IH]; simpl; [reflexivity|].
  rewrite andb_true_r. destruct (Ascii.eqb c d); simpl; now rewrite IH.
Qed.

Lemma replace_single_In s c x :
  In x (replace s [c]) <-> In x s /\ x <> c.
Proof.
  rewrite replace_single, filter_In, negb_true_iff, Ascii.eqb_neq.
  split; intros [H1 H2]; split; auto.
Qed.

Lemma contains_single s c : contains s [c] = chr_mem c s.
Proof.
  induction s as [|d s IH]; simpl; [reflexivity|].
  now rewrite andb_true_r, IH.
Qed.

(** [strip_values] drops exactly the characters of [values], whatever the
    order the set is run through, as soon as one character of the string is
    not in [values]. *)
Lemma strip_values_keeps values : forall s x,
  In x s -> ~ In x values -> In x (Board.strip_values values s).
Proof.
  unfold Board.strip_values.
  induction values as [|v values IH]; intros s x Hx Hn; simpl; [assumption|].
  apply IH; [|intros H; apply Hn; now right].
  destruct (1 <? length s); [|assumption].
  apply replace_single_In. split; [assumption|].
  intros ->. apply Hn. now left.
Qed.

Lemma strip_values_shrinks values : forall s,
  shrinks (Board.strip_values values s) s.
Proof.
  unfold Board.strip_values.
  induction values as [|v values IH]; intros s; simpl; [apply shrinks_refl|].
  eapply shrinks_trans; [apply IH|].
  destruct (1 <? length s); [apply replace_shrinks | apply shrinks_refl].
Qed.

Lemma filter_length_one {A} (p : A -> bool) (s : list A) x :
  In x s -> length s <= 1 -> p x = true -> filter p s = s.
Proof.
  destruct s as [|y [|z s]]; simpl; intros H L Hp; try lia.
  destruct H as [-> | []]. now rewrite Hp.
Qed.

Lemma strip_values_filter values : forall s x,
  In x s -> ~ In x values ->
  Board.strip_values values s = filter (fun d => negb (chr_mem d values)) s.
Proof.
  unfold Board.strip_values.
  induction values as [|v values IH]; intros s x Hx Hn;
    cbn [fold_left chr_mem existsb].
  - clear. induction s as [|d s IH]; simpl; [reflexivity | now f_equal].
  - assert (Hxv : x <> v) by (intros ->; apply Hn; now left).
    assert (Hnv : ~ In x values) by (intros H; apply Hn; now right).
    match goal with |- fold_left _ _ ?t = _ =>
      assert (E : t = filter (fun d => negb (Ascii.eqb v d)) s)
    end.
    { destruct (1 <? length s) eqn:L; [apply replace_single|].
      apply Nat.ltb_ge in L. symmetry.
      apply filter_length_one with (x := x); auto.
      apply negb_true_iff, Ascii.eqb_neq. congruence. }
    rewrite E.
    rewrite (IH _ x); [| |assumption].
    + clear. induction s as [|d s IH]; simpl; [reflexivity|].
      rewrite (Ascii.eqb_sym d v).
      destruct (Ascii.eqb v d); simpl; rewrite IH; [|reflexivity].
      reflexivity.
    + apply filter_In. split; [assumption|].
      apply negb_true_iff, Ascii.eqb_neq. congruence.
Qed.

(** The order in which a set of values is run through does not matter. *)
Lemma strip_values_any_order values values' s :
  (forall c, In c values <-> In c values') ->
  ~ incl s values ->
  Board.strip_values values s = Board.strip_values values' s.
Proof.
  intros Hsame Hnot.
  assert (Hx : exists x, In x s /\ ~ In x values).
  { clear Hsame. induction s as [|d s IH].
    - exfalso. apply Hnot. intros c [].
    - destruct (chr_mem d values) eqn:E.
      + apply chr_mem_In in E. destruct IH as (x & Hx & Hn).
        * intros H. apply Hnot. intros c [<- | Hc]; auto.
        * exists x. split; [now right | assumption].
      + exists d. split; [now left|]. rewrite <- chr_mem_In. congruence. }
  destruct Hx as (x & Hx & Hn).
  rewrite (strip_values_filter values s x Hx Hn).
  rewrite (strip_values_filter values' s x Hx); [|now rewrite <- Hsame].
  apply filter_ext. intros d. f_equal.
  destruct (chr_mem d values) eqn:E1, (chr_mem d values') eqn:E2; auto.
  - apply chr_mem_In, Hsame, chr_mem_In in E1. congruence.
  - apply chr_mem_In, Hsame, chr_mem_In in E2. congruence.
Qed.

End Strings.

(** * Facts about dictionaries and loops *)

Section Dicts.

Context {V : Type}.
Implicit Types (d : dict V) (k : pystr) (v : V).

Lemma getitem_setitem_same d k v : getitem (setitem d k v) k = Ok v.
Proof.
  induction d as [|[k' v'] d IH]; simpl.
  - now rewrite str_eqb_refl.
  - destruct (str_eqb k k') eqn:E; simpl; rewrite E; auto.
Qed.

Lemma getitem_setitem_other d k k' v :
  k <> k' -> getitem (setitem d k v) k' = getitem d k'.
Proof.
  intros Hne. induction d as [|[k0 v0] d IH]; simpl.
  - assert (E : str_eqb k' k = false) by (apply str_eqb_neq; congruence).
    now rewrite E.
  - destruct (str_eqb k k0) eqn:E; simpl.
    + apply str_eqb_eq in E; subst k0.
      assert (E : str_eqb k' k = false) by (apply str_eqb_neq; congruence).
      now rewrite E.
    + destruct (str_eqb k' k0); auto.
Qed.

Lemma getitem_In_keys d k : (exists v, getitem d k = Ok v) <-> In k (keys d).
Proof.
  induction d as [|[k' v'] d IH]; simpl.
  - split; [intros [v H]; discriminate | tauto].
  - destruct (str_eqb k k') eqn:E.
    + apply str_eqb_eq in E; subst. split; eauto.
    + apply str_eqb_neq in E. rewrite IH.
      split; [auto | intros [H|H]; congruence || auto].
Qed.

Lemma getitem_not_out_of_fuel d k : getitem d k <> OutOfFuel.
Proof.
  induction d as [|[k' v'] d IH]; simpl; [discriminate|].
  destruct (str_eqb k k'); [discriminate | assumption].
Qed.

Lemma keys_setitem d k v : In k (keys d) -> keys (setitem d k v) = keys d.
Proof.
  induction d as [|[k' v'] d IH]; simpl; [tauto|].
  intros H. destruct (str_eqb k k') eqn:E; simpl; [reflexivity|].
  f_equal. apply IH. destruct H as [H|H]; [|assumption].
  apply str_eqb_neq in E. congruence.
Qed.

Lemma setitem_new d k v : ~ In k (keys d) -> setitem d k v = d ++ [(k, v)].
Proof.
  induction d as [|[k' v'] d IH]; simpl; [reflexivity|].
  intros H. destruct (str_eqb k k') eqn:E.
  - apply str_eqb_eq in E. subst. tauto.
  - f_equal. apply IH. tauto.
Qed.

Lemma getitem_combine (ks : list pystr) : forall (vs : list V) i k0 v0,
  NoDup ks -> length vs = length ks -> i < length ks ->
  getitem (combine ks vs) (nth i ks k0) = Ok (nth i vs v0).
Proof.
  induction ks as [|k ks IH]; intros vs i k0 v0 Hnd Hlen Hi; simpl in *; [lia|].
  destruct vs as [|v vs]; simpl in *; [lia|].
  inversion Hnd; subst.
  destruct i as [|i].
  - now rewrite str_eqb_refl.
  - assert (E : str_eqb (nth i ks k0) k = false).
    { apply str_eqb_neq. intros <-. apply H1, nth_In. lia. }
    rewrite E. apply IH; auto; lia.
Qed.

End Dicts.

Section Loops.

Context {A S : Type}.

(** A loop whose body returns and keeps [P] returns, with [P]. *)
Lemma for_each_inv (P : S -> Prop) (body : S -> A -> result S) :
  forall xs acc,
    P acc ->
    (forall a x, In x xs -> P a -> exists a', body a x = Ok a' /\ P a') ->
    exists r, for_each xs body acc = Ok r /\ P r.
Proof.
  induction xs as [|x xs IH]; intros acc Hacc Hbody; simpl.
  - eauto.
  - destruct (Hbody acc x (or_introl eq_refl) Hacc) as (a' & -> & Ha').
    simpl. apply IH; [assumption|].
    intros a y Hy. apply Hbody. now right.
Qed.

Lemma for_each_app (body : S -> A -> result S) xs ys acc :
  for_each (xs ++ ys) body acc =
  (mid <- for_each xs body acc ;; for_each ys body mid).
Proof.
  revert acc. induction xs as [|x xs IH]; intros acc; simpl; [reflexivity|].
  destruct (body acc x); simpl; auto.
Qed.

End Loops.

Lemma map_r_ok {A B} (f : A -> result B) (g : A -> B) xs :
  (forall x, In x xs -> f x = Ok (g x)) -> map_r f xs = Ok (map g xs).
Proof.
  induction xs as [|x xs IH]; intros H; simpl; [reflexivity|].
  rewrite (H x (or_introl eq_refl)). simpl.
  rewrite IH; [reflexivity|]. intros y Hy. apply H. now right.
Qed.

Lemma map_r_inv {A B} (f : A -> result B) xs : forall ys,
  map_r f xs = Ok ys -> Forall2 (fun x y => f x = Ok y) xs ys.
Proof.
  induction xs as [|x xs IH]; simpl; intros ys.
  - intros [= <-]. constructor.
  - destruct (f x) as [y| |] eqn:E; simpl; try discriminate.
    destruct (map_r f xs) as [ys'| |]; simpl; try discriminate.
    intros [= <-]. constructor; auto.
Qed.

Lemma filter_r_ok {A} (p : A -> result bool) (q : A -> bool) xs :
  (forall x, In x xs -> p x = Ok (q x)) -> filter_r p xs = Ok (filter q xs).
Proof.
  induction xs as [|x xs IH]; intros H; simpl; [reflexivity|].
  rewrite (H x (or_introl eq_refl)). simpl.
  rewrite IH; [reflexivity|]. intros y Hy. apply H. now right.
Qed.

(** * The topology *)

Lemma distinct_NoDup xs : distinct xs = true <-> NoDup xs.
Proof.
  induction xs as [|x xs IH]; simpl.
  - split; [constructor | reflexivity].
  - rewrite andb_true_iff, negb_true_iff, str_mem_not_In, IH.
    split; [intros [H1 H2]; now constructor | intros H; now inversion H].
Qed.

Lemma num_boxes_81 : Board.num_boxes = 81.
Proof. reflexivity. Qed.

Lemma boxes_length : length Board.boxes = Board.num_boxes.
Proof. reflexivity. Qed.

Lemma boxes_NoDup : NoDup Board.boxes.
Proof. apply distinct_NoDup. vm_compute. reflexivity. Qed.

Lemma all_units_ok dm u :
  In u (Board.all_units dm) ->
  NoDup u /\ incl u Board.boxes /\ length u = 9.
Proof.
  intros H.
  assert (E : forallb unit_ok (Board.all_units dm) = true)
    by (destruct dm; vm_compute; reflexivity).
  rewrite forallb_forall in E. specialize (E u H). unfold unit_ok in E.
  rewrite !andb_true_iff in E. destruct E as [[E1 E2] E3].
  rewrite distinct_NoDup in E1. rewrite set_subset_incl in E2.
  apply Nat.eqb_eq in E3. auto.
Qed.

(** The units of a box are the units that hold it, in the order of
    [all_units]. *)
Lemma units_of_box dm box :
  In box Board.boxes ->
  Board.units dm box
  = Ok (filter (fun unit => str_mem box unit) (Board.all_units dm)).
Proof.
  intros H.
  pose (same := list_eq_dec (list_eq_dec (list_eq_dec ascii_dec))).
  assert (E : forallb
                (fun box =>
                   match Board.units dm box with
                   | Ok us =>
                       if same us (filter (fun unit => str_mem box unit)
                                          (Board.all_units dm))
                       then true else false
                   | _ => false
                   end) Board.boxes = true)
    by (destruct dm; vm_compute; reflexivity).
  rewrite forallb_forall in E. specialize (E box H).
  destruct (Board.units dm box) as [us| |]; try discriminate.
  destruct (same us _) as [-> |]; [reflexivity | discriminate].
Qed.

Lemma units_unknown_box dm box :
  ~ In box Board.boxes -> Board.units dm box = Raise KeyError.
Proof.
  intros H. unfold Board.units.
  destruct (getitem (Board._units dm) box) as [us|e|] eqn:E.
  - exfalso. apply H.
    assert (K : keys (Board._units dm) = Board.boxes)
      by (destruct dm; vm_compute; reflexivity).
    rewrite <- K. apply getitem_In_keys. eauto.
  - destruct e; try reflexivity; exfalso; revert E; clear;
      induction (Board._units dm) as [|[k v] d IH]; simpl; try discriminate;
      destruct (str_eqb box k); auto; discriminate.
  - exfalso. eapply getitem_not_out_of_fuel; eauto.
Qed.

Lemma peers_in_boxes dm box :
  In box Board.boxes ->
  exists ps, Board.peers dm box = Ok ps /\ incl ps Board.boxes /\ NoDup ps
             /\ ~ In box ps.
Proof.
  intros H.
  assert (E : forallb
                (fun box =>
                   match Board.peers dm box with
                   | Ok ps => set_subset ps Board.boxes && distinct ps
                              && negb (str_mem box ps)
                   | _ => false
                   end) Board.boxes = true)
    by (destruct dm; vm_compute; reflexivity).
  rewrite forallb_forall in E. specialize (E box H).
  destruct (Board.peers dm box) as [ps| |]; try discriminate.
  rewrite !andb_true_iff in E. destruct E as [[E1 E2] E3].
  exists ps. rewrite <- set_subset_incl, <- distinct_NoDup.
  rewrite negb_true_iff, str_mem_not_In in E3. auto.
Qed.

(** C3, as amended: a box has 20 peers when diagonal mode is off and when the
    box lies on no diagonal; in diagonal mode a box on one diagonal has 26
    peers and a box on both has 32, and the centre [E5] is the one box on
    both. *)
Theorem peers_size dm box :
  In box Board.boxes ->
  exists ps,
    Board.peers dm box = Ok ps /\ NoDup ps /\
    length ps = (if dm
                 then match diagonals_through box with
                      | 0 => 20
                      | 1 => 26
                      | _ => 32
                      end
                 else 20) /\
    (diagonals_through box = 2 <-> box = py "E5").
Proof.
  intros H.
  assert (E : forallb
                (fun box =>
                   match Board.peers dm box with
                   | Ok ps =>
                       distinct ps &&
                       (length ps =?
                        if dm
                        then match diagonals_through box with
                             | 0 => 20
                             | 1 => 26
                             | _ => 32
                             end
                        else 20) &&
                       Bool.eqb (diagonals_through box =? 2)
                                (str_eqb box (py "E5"))
                   | _ => false
                   end) Board.boxes = true)
    by (destruct dm; vm_compute; reflexivity).
  rewrite forallb_forall in E. specialize (E box H).
  destruct (Board.peers dm box) as [ps| |]; try discriminate.
  rewrite !andb_true_iff in E. destruct E as [[E1 E2] E3].
  exists ps. rewrite <- distinct_NoDup, <- Nat.eqb_eq.
  split; [reflexivity|]. split; [assumption|]. split; [assumption|].
  apply Bool.eqb_prop in E3.
  rewrite <- Nat.eqb_eq, <- str_eqb_eq, E3. reflexivity.
Qed.

Lemma peers_size_witness :
  exists ps,
    Board.peers true (py "E5") = Ok ps /\ NoDup ps /\
    length ps = 32 /\
    (diagonals_through (py "E5") = 2 <-> py "E5" = py "E5").
Proof.
  apply (peers_size true (py "E5")).
  apply str_mem_In. vm_compute. reflexivity.
Defined.

(** C3 as stated fails: in diagonal mode the corner [A1] lies on a diagonal
    and has 26 peers, more than 22. *)
Lemma peers_diagonal_box_over_22 :
  exists ps,
    Board.peers true (py "A1") = Ok ps /\
    diagonals_through (py "A1") = 1 /\
    length ps = 26 /\ ~ length ps <= 22.
Proof.
  eexists. split; [vm_compute; reflexivity|].
  split; [reflexivity|]. split; [reflexivity|]. simpl. lia.
Qed.

(** * The codec *)

Section Codec.

Lemma grid_values_loop (s : pystr) : forall pre rest acc,
  Board.boxes = pre ++ rest ->
  keys acc = pre ->
  length s <= length rest ->
  for_each (combine (seq (length pre) (length s)) s) grid_values_body acc
  = Ok (acc ++ combine (firstn (length s) rest) (map cell_of_char s)).
Proof.
  induction s as [|c s IH]; intros pre rest acc Hb Hk Hl; simpl.
  - now rewrite app_nil_r.
  - destruct rest as [|b rest]; simpl in Hl; [lia|].
    assert (Hn : nth_error Board.boxes (length pre) = Some b).
    { rewrite Hb, nth_error_app2, Nat.sub_diag by lia. reflexivity. }
    rewrite Hn. simpl.
    assert (Hnew : ~ In b (keys acc)).
    { rewrite Hk. intros Hin. pose proof boxes_NoDup as ND. rewrite Hb in ND.
      apply NoDup_remove_2 in ND. apply ND. apply in_or_app. now left. }
    rewrite (setitem_new _ _ _ Hnew).
    specialize (IH (pre ++ [b]) rest
                   (acc ++ [(b, cell_of_char c)])).
    rewrite length_app, Nat.add_1_r in IH.
    fold (cell_of_char c).
    rewrite IH.
    + now rewrite <- app_assoc.
    + now rewrite <- app_assoc.
    + unfold keys in *. now rewrite map_app, Hk.
    + lia.
Qed.

Lemma grid_values_closed_form (s : pystr) :
  length s = Board.num_boxes ->
  Board.grid_values s = Ok (combine Board.boxes (map cell_of_char s)).
Proof.
  intros Hlen. unfold Board.grid_values.
  rewrite Hlen, Nat.eqb_refl. simpl negb. cbv iota.
  pose proof (grid_values_loop s [] Board.boxes [] eq_refl eq_refl) as H.
  rewrite Hlen in H.
  specialize (H ltac:(rewrite boxes_length; lia)).
  rewrite <- boxes_length, firstn_all in H. exact H.
Qed.

Lemma grid_values_wrong_length (s : pystr) :
  length s <> Board.num_boxes -> Board.grid_values s = Raise ValueError.
Proof.
  intros H. unfold Board.grid_values.
  apply Nat.eqb_neq in H. now rewrite H.
Qed.

Lemma keys_combine (ks : list pystr) (vs : list pystr) :
  length vs = length ks -> keys (combine ks vs) = ks.
Proof.
  revert vs. induction ks as [|k ks IH]; intros [|v vs]; simpl;
    try discriminate; auto.
  intros [= H]. f_equal. now apply IH.
Qed.

Lemma board_to_str_loop (board_dict : BoardState) (g : pystr -> pystr) :
  forall ks acc,
    (forall k, In k ks -> getitem board_dict k = Ok (g k)) ->
    for_each ks
      (fun string key =>
         v <- getitem board_dict key ;; Ok (string ++ v ++ py ","))
      acc
    = Ok (acc ++ flat_map (fun k => g k ++ py ",") ks).
Proof.
  induction ks as [|k ks IH]; intros acc H; simpl.
  - now rewrite app_nil_r.
  - rewrite (H k (or_introl eq_refl)). simpl.
    rewrite IH by (intros; apply H; now right).
    now rewrite <- !app_assoc.
Qed.

Lemma removelast_flat_map_join (c : ascii) (tokens : list pystr) :
  removelast (flat_map (fun t => t ++ [c]) tokens) = join [c] tokens.
Proof.
  induction tokens as [|t rest IH]; [reflexivity|].
  destruct rest as [|t' rest].
  - simpl. rewrite app_nil_r. apply removelast_last.
  - change (join [c] (t :: t' :: rest))
      with (t ++ [c] ++ join [c] (t' :: rest)).
    rewrite <- IH.
    change (flat_map (fun t => t ++ [c]) (t :: t' :: rest))
      with ((t ++ [c]) ++ flat_map (fun t => t ++ [c]) (t' :: rest)).
    rewrite removelast_app.
    + now rewrite <- app_assoc.
    + cbn [flat_map]. destruct t'; discriminate.
Qed.

Lemma board_to_str_combine (vs : list pystr) :
  length vs = Board.num_boxes ->
  Board.board_to_str (combine Board.boxes vs) = Ok (join (py ",") vs).
Proof.
  intros Hlen. unfold Board.board_to_str.
  set (bd := combine Board.boxes vs).
  set (g := fun k => match getitem bd k with Ok v => v | _ => [] end).
  assert (Hg : forall i, i < Board.num_boxes ->
                         getitem bd (nth i Board.boxes []) = Ok (nth i vs [])).
  { intros i Hi. apply getitem_combine.
    - apply boxes_NoDup.
    - now rewrite boxes_length.
    - now rewrite boxes_length. }
  rewrite (board_to_str_loop bd g).
  - cbn [bind app]. f_equal.
    assert (E : map g Board.boxes = vs).
    { apply nth_ext with (d := g []) (d' := []).
      - now rewrite length_map, boxes_length.
      - intros i Hi. rewrite length_map, boxes_length in Hi.
        rewrite (map_nth g). unfold g. now rewrite Hg. }
    rewrite flat_map_concat_map.
    rewrite <- (map_map g (fun v => v ++ py ",")).
    rewrite <- flat_map_concat_map. rewrite E.
    apply removelast_flat_map_join.
  - intros k Hk. apply (In_nth _ _ []) in Hk. destruct Hk as (i & Hi & <-).
    rewrite boxes_length in Hi. unfold g. now rewrite Hg.
Qed.

End Codec.

(** C9: [grid_values] raises [ValueError] exactly when the string does not
    have 81 characters; a string of 81 characters gives the state whose keys
    are the boxes in order and whose [i]-th box holds all nine values for a
    ['.'] and the [i]-th character alone otherwise. *)
Theorem grid_values_format (board_string : pystr) :
  (Board.grid_values board_string = Raise ValueError
   <-> length board_string <> Board.num_boxes) /\
  (length board_string = Board.num_boxes ->
   exists board_dict,
     Board.grid_values board_string = Ok board_dict /\
     keys board_dict = Board.boxes /\
     forall i, i < Board.num_boxes ->
       getitem board_dict (nth i Board.boxes [])
       = Ok (if Ascii.eqb (nth i board_string " "%char) "."%char
             then Board._values
             else [nth i board_string " "%char])).
Proof.
  split.
  - split.
    + intros H Hlen. rewrite (grid_values_closed_form _ Hlen) in H.
      discriminate.
    + apply grid_values_wrong_length.
  - intros Hlen. eexists. split; [now apply grid_values_closed_form|].
    split.
    + apply keys_combine. now rewrite length_map, boxes_length.
    + intros i Hi.
      rewrite (getitem_combine Board.boxes (map cell_of_char board_string)
                 i [] (cell_of_char " "%char)).
      * now rewrite (map_nth cell_of_char).
      * apply boxes_NoDup.
      * now rewrite length_map, boxes_length.
      * now rewrite boxes_length.
Qed.

(** C6: for a string of 81 characters without ['.'], decoding stores the
    [i]-th character alone in the [i]-th box, and encoding the decoded state
    gives the characters in that order, joined by commas. *)
Theorem decode_encode_roundtrip (board_string : pystr) :
  length board_string = Board.num_boxes ->
  ~ In "."%char board_string ->
  exists board_dict,
    Board.grid_values board_string = Ok board_dict /\
    (forall i, i < Board.num_boxes ->
       getitem board_dict (nth i Board.boxes [])
       = Ok [nth i board_string " "%char]) /\
    Board.board_to_str board_dict
    = Ok (join (py ",") (map (fun c => [c]) board_string)).
Proof.
  intros Hlen Hdot.
  assert (E : map cell_of_char board_string
              = map (fun c => [c]) board_string).
  { apply map_ext_in. intros c Hc. unfold cell_of_char.
    destruct (Ascii.eqb c ".") eqn:Ec; [|reflexivity].
    apply Ascii.eqb_eq in Ec. subst. contradiction. }
  eexists. split; [now apply grid_values_closed_form|].
  rewrite E. split.
  - intros i Hi.
    rewrite (getitem_combine Board.boxes _ i [] [" "%char]).
    + now rewrite (map_nth (fun c => [c])).
    + apply boxes_NoDup.
    + now rewrite length_map, boxes_length.
    + now rewrite boxes_length.
  - apply board_to_str_combine. now rewrite length_map.
Qed.

(** * The contradiction check of [reduce_puzzle] *)

Lemma reduce_puzzle_unfold dm fuel board_dict :
  Board.reduce_puzzle dm (S fuel) board_dict
  = (after <- propagate dm board_dict ;;
     if Board.num_solved_boxes after =? 0 then Ok None
     else if Board.num_solved_boxes board_dict =? Board.num_solved_boxes after
          then Ok (Some after)
          else Board.reduce_puzzle dm fuel after).
Proof.
  unfold propagate. simpl.
  destruct (Board.eliminate dm board_dict) as [b1| |]; simpl; auto.
Qed.

(** C1, on the code: the loop of [reduce_puzzle] tests whether the number of
    solved boxes is zero, not whether a box is empty.  On the grid with two
    1s in row A the first pass empties [A2], yet every run of two passes or
    more returns that state; on the blank grid no box is ever empty, yet
    [reduce_puzzle] returns [None]. *)
Theorem reduce_puzzle_contradiction_check :
  (Board.grid_values contradictory_grid = Ok contradictory_board /\
   propagate false contradictory_board = Ok contradictory_after_pass /\
   getitem contradictory_after_pass (py "A2") = Ok [] /\
   forall fuel,
     Board.reduce_puzzle false (2 + fuel) contradictory_board
     = Ok (Some contradictory_after_pass)) /\
  (Board.grid_values blank_grid = Ok blank_board /\
   propagate false blank_board = Ok blank_board /\
   has_empty_cell blank_board = false /\
   forall fuel,
     Board.reduce_puzzle false (1 + fuel) blank_board = Ok None).
Proof.
  assert (P1 : propagate false contradictory_board
               = Ok contradictory_after_pass) by (vm_compute; reflexivity).
  assert (P2 : propagate false contradictory_after_pass
               = Ok contradictory_after_pass) by (vm_compute; reflexivity).
  assert (P3 : propagate false blank_board = Ok blank_board)
    by (vm_compute; reflexivity).
  split; [split; [|split; [|split]] | split; [|split; [|split]]].
  - vm_compute; reflexivity.
  - exact P1.
  - vm_compute; reflexivity.
  - intros fuel. change (2 + fuel) with (S (S fuel)).
    rewrite reduce_puzzle_unfold, P1. cbn [bind].
    replace (Board.num_solved_boxes contradictory_after_pass) with 1
      by (vm_compute; reflexivity).
    replace (Board.num_solved_boxes contradictory_board) with 2
      by (vm_compute; reflexivity).
    cbn [Nat.eqb].
    rewrite reduce_puzzle_unfold, P2. cbn [bind].
    replace (Board.num_solved_boxes contradictory_after_pass) with 1
      by (vm_compute; reflexivity).
    reflexivity.
  - vm_compute; reflexivity.
  - exact P3.
  - vm_compute; reflexivity.
  - intros fuel. change (1 + fuel) with (S fuel).
    rewrite reduce_puzzle_unfold, P3. cbn [bind].
    replace (Board.num_solved_boxes blank_board) with 0
      by (vm_compute; reflexivity).
    reflexivity.
Qed.

Lemma search_unfold dm fuel board_dict :
  Board.search dm (S fuel) board_dict
  = (reduced <- Board.reduce_puzzle dm (S fuel) board_dict ;;
     match reduced with
     | None => Ok None
     | Some reduced =>
         if Board.num_solved_boxes reduced =? Board.num_boxes then
           valid <- Board.validate dm reduced ;;
           if valid then Ok (Some reduced) else Ok None
         else
           match Board.sorted_box_possibilities reduced with
           | smallest_box :: _ =>
               choices <- getitem reduced smallest_box ;;
               Board.try_choices (Board.search dm fuel)
                                 reduced smallest_box choices
           | [] => Ok None
           end
     end).
Proof. reflexivity. Qed.

(** C2, on the code: the grid with two 1s in row A is not rejected by the
    first [reduce_puzzle] of [search].  The reduction returns a state with
    [A2] empty and one box solved, and [search] goes on to branch on [A3],
    the first box with the fewest candidates, over its eight values. *)
Theorem search_branches_on_contradictory_grid :
  Board.grid_values contradictory_grid = Ok contradictory_board /\
  (forall fuel,
     Board.reduce_puzzle false (2 + fuel) contradictory_board
     = Ok (Some contradictory_after_pass)) /\
  has_empty_cell contradictory_after_pass = true /\
  Board.num_solved_boxes contradictory_after_pass = 1 /\
  (forall fuel,
     Board.search false (2 + fuel) contradictory_board
     = Board.try_choices (Board.search false (1 + fuel))
         contradictory_after_pass (py "A3") (py "23456789")).
Proof.
  assert (R : forall fuel,
             Board.reduce_puzzle false (2 + fuel) contradictory_board
             = Ok (Some contradictory_after_pass)).
  { intros fuel. change (2 + fuel) with (S (S fuel)).
    rewrite reduce_puzzle_unfold.
    replace (propagate false contradictory_board)
      with (Ok contradictory_after_pass) by (vm_compute; reflexivity).
    cbn [bind].
    replace (Board.num_solved_boxes contradictory_after_pass) with 1
      by (vm_compute; reflexivity).
    replace (Board.num_solved_boxes contradictory_board) with 2
      by (vm_compute; reflexivity).
    cbn [Nat.eqb].
    rewrite reduce_puzzle_unfold.
    replace (propagate false contradictory_after_pass)
      with (Ok contradictory_after_pass) by (vm_compute; reflexivity).
    cbn [bind].
    replace (Board.num_solved_boxes contradictory_after_pass) with 1
      by (vm_compute; reflexivity).
    reflexivity. }
  split; [vm_compute; reflexivity|].
  split; [exact R|].
  split; [vm_compute; reflexivity|].
  split; [vm_compute; reflexivity|].
  intros fuel. change (2 + fuel) with (S (S fuel)).
  pose proof (R fuel) as Rf. change (2 + fuel) with (S (S fuel)) in Rf.
  rewrite search_unfold, Rf. cbn [bind].
  replace (Board.num_solved_boxes contradictory_after_pass =? Board.num_boxes)
    with false by (vm_compute; reflexivity).
  replace (Board.sorted_box_possibilities contradictory_after_pass)
    with (py "A3"
          :: tl (Board.sorted_box_possibilities contradictory_after_pass))
    by (vm_compute; reflexivity).
  replace (getitem contradictory_after_pass (py "A3"))
    with (Ok (py "23456789")) by (vm_compute; reflexivity).
  reflexivity.
Qed.

(** * Validation *)

Lemma fully_assigned_cell board_dict box :
  fully_assigned board_dict = true -> In box Board.boxes ->
  getitem board_dict box = Ok [cell_char board_dict box].
Proof.
  unfold fully_assigned, cell_char. rewrite forallb_forall.
  intros H Hb. specialize (H box Hb).
  destruct (getitem board_dict box) as [[|c [|? ?]]| |]; try discriminate.
  reflexivity.
Qed.

Lemma complete_unit_In x :
  In x Board.complete_unit <-> exists c, x = [c] /\ In c Board._values.
Proof.
  unfold Board.complete_unit. rewrite set_of_In, in_map_iff.
  split; intros (c & H1 & H2); exists c; auto.
Qed.

Lemma values_NoDup : NoDup Board._values.
Proof.
  apply (NoDup_map_inv (fun c => [c])), distinct_NoDup. vm_compute. reflexivity.
Qed.

(** Nine characters make up the set of all values exactly when they are a
    rearrangement of the values. *)
Lemma unit_set_complete (cs : list ascii) :
  length cs = 9 ->
  set_eqb (set_of (map (fun c => [c]) cs)) Board.complete_unit = true
  <-> Permutation cs Board._values.
Proof.
  intros Hlen. rewrite set_eqb_same_elements. split.
  - intros H. symmetry. apply NoDup_Permutation_bis.
    + apply values_NoDup.
    + rewrite Hlen. vm_compute. lia.
    + intros c Hc.
      assert (Hin : In [c] Board.complete_unit)
        by (apply complete_unit_In; eauto).
      apply H, set_of_In, in_map_iff in Hin.
      destruct Hin as (c' & [= ->] & Hin). assumption.
  - intros HP x. rewrite set_of_In, complete_unit_In, in_map_iff. split.
    + intros (c & <- & Hc). exists c. split; [reflexivity|].
      eapply Permutation_in; eauto.
    + intros (c & -> & Hc). exists c. split; [reflexivity|].
      eapply Permutation_in; [symmetry|]; eauto.
Qed.

Lemma validate_units_true units board_dict :
  Board.validate_units units board_dict = Ok true ->
  forall unit, In unit units ->
    exists unit_values,
      map_r (getitem board_dict) unit = Ok unit_values /\
      set_eqb (set_of unit_values) Board.complete_unit = true.
Proof.
  induction units as [|u us IH]; simpl; [intros _ ? []|].
  destruct (map_r (getitem board_dict) u) as [vals| |] eqn:E; simpl;
    try discriminate.
  destruct (set_eqb (set_of vals) Board.complete_unit) eqn:Es; simpl;
    [|discriminate].
  intros H unit [<- | Hin]; [eauto | auto].
Qed.

Lemma validate_units_assigned board_dict :
  fully_assigned board_dict = true ->
  forall units,
    (forall u, In u units -> incl u Board.boxes /\ length u = 9) ->
    exists valid,
      Board.validate_units units board_dict = Ok valid /\
      (valid = true <->
       forall u, In u units ->
         Permutation (map (cell_char board_dict) u) Board._values).
Proof.
  intros Hfull. induction units as [|u us IH]; intros Hus; simpl.
  - exists true. split; [reflexivity|]. split; [intros _ ? [] | reflexivity].
  - destruct (Hus u (or_introl eq_refl)) as [Hincl Hlen].
    assert (E : map_r (getitem board_dict) u
                = Ok (map (fun c => [c]) (map (cell_char board_dict) u))).
    { rewrite map_map. apply map_r_ok. intros box Hbox.
      apply fully_assigned_cell; auto. }
    rewrite E. simpl.
    pose proof (unit_set_complete (map (cell_char board_dict) u)) as Hset.
    rewrite length_map in Hset. specialize (Hset Hlen).
    destruct (set_eqb _ Board.complete_unit) eqn:Es; simpl.
    + destruct IH as (valid & -> & Hvalid);
        [intros; apply Hus; now right|].
      exists valid. split; [reflexivity|]. rewrite Hvalid. split.
      * intros H w [<- | Hw]; [now apply Hset | auto].
      * intros H w Hw. apply H. now right.
    + exists false. split; [reflexivity|]. split; [discriminate|].
      intros H. apply Hset in H; [discriminate | now left].
Qed.

Lemma same_values_permutation (cs : list ascii) :
  length cs = 9 ->
  (forall c, In c cs <-> In c Board._values) <-> Permutation cs Board._values.
Proof.
  intros Hlen. split.
  - intros H. symmetry. apply NoDup_Permutation_bis.
    + apply values_NoDup.
    + rewrite Hlen. vm_compute. lia.
    + intros c Hc. now apply H.
  - intros HP c. split; apply Permutation_in; [|symmetry]; assumption.
Qed.

(** C8: on a state whose boxes all hold a single character, [validate]
    returns, and returns [True] exactly when the set of the characters of
    every unit is the set of the nine values, which is to say when the
    characters of every unit are a rearrangement of the nine values.
    [validate] only reads the state: it returns a boolean and no state. *)
Theorem validate_units_are_permutations dm board_dict :
  fully_assigned board_dict = true ->
  exists valid,
    Board.validate dm board_dict = Ok valid /\
    (valid = true <->
     forall unit, In unit (Board.all_units dm) ->
       forall c, In c (map (cell_char board_dict) unit)
                 <-> In c Board._values) /\
    (valid = true <->
     forall unit, In unit (Board.all_units dm) ->
       Permutation (map (cell_char board_dict) unit) Board._values).
Proof.
  intros Hfull.
  destruct (validate_units_assigned board_dict Hfull (Board.all_units dm))
    as (valid & Hv & Hiff).
  { intros u Hu. destruct (all_units_ok dm u Hu) as (_ & H1 & H2). auto. }
  exists valid. split; [exact Hv|]. split; [|exact Hiff].
  rewrite Hiff. split; intros H unit Hunit.
  - apply same_values_permutation; [|auto].
    rewrite length_map.
    now destruct (all_units_ok dm unit Hunit) as (_ & _ & ?).
  - apply same_values_permutation; [|auto].
    rewrite length_map.
    now destruct (all_units_ok dm unit Hunit) as (_ & _ & ?).
Qed.

(** * Search *)

Lemma box_in_some_unit dm box :
  In box Board.boxes -> exists u, In u (Board.all_units dm) /\ In box u.
Proof.
  intros H.
  assert (E : forallb (fun box => existsb (str_mem box) (Board.all_units dm))
                      Board.boxes = true)
    by (destruct dm; vm_compute; reflexivity).
  rewrite forallb_forall in E. specialize (E box H).
  apply existsb_exists in E. destruct E as (u & Hu & Hb).
  exists u. split; [assumption | now apply str_mem_In].
Qed.

Lemma validate_true_cells dm board_dict :
  Board.validate dm board_dict = Ok true ->
  forall box, In box Board.boxes ->
    exists c, getitem board_dict box = Ok [c] /\ In c Board._values.
Proof.
  intros Hv box Hbox.
  destruct (box_in_some_unit dm box Hbox) as (u & Hu & Hin).
  destruct (validate_units_true _ _ Hv u Hu) as (vals & Hm & Hs).
  apply map_r_inv in Hm.
  rewrite set_eqb_same_elements in Hs.
  assert (Hget : exists v, getitem board_dict box = Ok v /\ In v vals).
  { clear -Hm Hin. induction Hm as [|x y xs ys Hxy Hrest IH]; [destruct Hin|].
    destruct Hin as [<- | Hin].
    - exists y. split; [assumption | now left].
    - destruct (IH Hin) as (v & H1 & H2). exists v. split; [assumption | now right]. }
  destruct Hget as (v & Hget & Hv').
  apply set_of_In, Hs, complete_unit_In in Hv'.
  destruct Hv' as (c & -> & Hc). eauto.
Qed.

Lemma try_choices_sound (P : BoardState -> Prop) recurse reduced box :
  (forall b r, recurse b = Ok (Some r) -> P r) ->
  forall choices r,
    Board.try_choices recurse reduced box choices = Ok (Some r) -> P r.
Proof.
  intros Hrec. induction choices as [|c cs IH]; simpl; intros r;
    [discriminate|].
  destruct (recurse (setitem reduced box [c])) as [[r'|]| |] eqn:E; simpl;
    try discriminate.
  - intros [= <-]. eapply Hrec; eauto.
  - apply IH.
Qed.

(** C4: a state returned by [search] has all 81 boxes solved and passes
    [validate]; each of its boxes holds one of the nine values. *)
Theorem search_returns_validated_solution dm fuel board_dict solution :
  Board.search dm fuel board_dict = Ok (Some solution) ->
  Board.num_solved_boxes solution = Board.num_boxes /\
  Board.validate dm solution = Ok true /\
  forall box, In box Board.boxes ->
    exists c, getitem solution box = Ok [c] /\ In c Board._values.
Proof.
  revert board_dict solution.
  induction fuel as [|fuel IH]; intros board_dict solution;
    [discriminate|].
  rewrite search_unfold.
  destruct (Board.reduce_puzzle dm (S fuel) board_dict) as [[reduced|]| |];
    cbn [bind]; try discriminate.
  destruct (Board.num_solved_boxes reduced =? Board.num_boxes) eqn:Esolved.
  - destruct (Board.validate dm reduced) as [[|]| |] eqn:Ev; cbn [bind];
      try discriminate.
    intros [= <-]. apply Nat.eqb_eq in Esolved.
    split; [assumption|]. split; [assumption|].
    now apply validate_true_cells with (dm := dm).
  - destruct (Board.sorted_box_possibilities reduced) as [|box rest];
      [discriminate|].
    destruct (getitem reduced box) as [choices| |]; cbn [bind];
      try discriminate.
    intros Htry.
    apply (try_choices_sound
             (fun r =>
                Board.num_solved_boxes r = Board.num_boxes /\
                Board.validate dm r = Ok true /\
                forall box, In box Board.boxes ->
                  exists c, getitem r box = Ok [c] /\ In c Board._values)
             (Board.search dm fuel) reduced box IH choices solution Htry).
Qed.

(** * States over the 81 boxes *)

Section Narrowing.

Lemma board_ok_keys board_dict k :
  board_ok board_dict = true -> (In k (keys board_dict) <-> In k Board.boxes).
Proof.
  unfold board_ok. rewrite andb_true_iff, set_eqb_same_elements.
  intros [_ H]. apply H.
Qed.

Lemma board_ok_getitem board_dict k :
  board_ok board_dict = true -> In k Board.boxes ->
  exists v, getitem board_dict k = Ok v.
Proof.
  intros Hok Hk. apply getitem_In_keys. now apply board_ok_keys.
Qed.

Lemma board_ok_same_keys a b :
  keys b = keys a -> board_ok a = true -> board_ok b = true.
Proof. unfold board_ok. now intros ->. Qed.

Lemma narrows_refl a : narrows a a.
Proof.
  split; [reflexivity|]. intros k v H. exists v. split; [assumption|].
  apply shrinks_refl.
Qed.

Lemma narrows_trans a b c : narrows a b -> narrows b c -> narrows a c.
Proof.
  intros [K1 H1] [K2 H2]. split; [congruence|].
  intros k v Hk. destruct (H1 k v Hk) as (v1 & Hv1 & S1).
  destruct (H2 k v1 Hv1) as (v2 & Hv2 & S2).
  exists v2. split; [assumption|]. eapply shrinks_trans; eauto.
Qed.

Lemma narrows_setitem a k v v' :
  getitem a k = Ok v -> shrinks v' v -> narrows a (setitem a k v').
Proof.
  intros Hk Hs. split.
  - apply keys_setitem. apply getitem_In_keys. eauto.
  - intros k0 v0 H0. destruct (str_eqb k k0) eqn:E.
    + apply str_eqb_eq in E. subst k0. rewrite getitem_setitem_same.
      exists v'. split; [reflexivity|]. congruence.
    + apply str_eqb_neq in E. rewrite getitem_setitem_other by assumption.
      exists v0. split; [assumption | apply shrinks_refl].
Qed.

Lemma narrows_board_ok a b :
  narrows a b -> board_ok a = true -> board_ok b = true.
Proof. intros [K _]. now apply board_ok_same_keys. Qed.

Lemma keys_where_In p (board_dict : BoardState) k :
  In k (Board.keys_where p board_dict) -> In k (keys board_dict).
Proof.
  unfold Board.keys_where, keys. rewrite !in_map_iff.
  intros (kv & <- & H). apply filter_In in H. exists kv. tauto.
Qed.

(** The loop over the peers of [box] in [eliminate]. *)
Lemma eliminate_peers_narrows digit ps :
  forall a,
    (forall p, In p ps -> In p (keys a)) ->
    exists a',
      for_each ps
        (fun board_dict peer =>
           v <- getitem board_dict peer ;;
           Ok (setitem board_dict peer (replace v digit)))
        a = Ok a' /\ narrows a a'.
Proof.
  intros a Hps.
  apply (for_each_inv (fun a' => narrows a a')).
  - apply narrows_refl.
  - intros b p Hp Hb.
    assert (Hin : In p (keys b)) by (destruct Hb as [-> _]; auto).
    apply getitem_In_keys in Hin. destruct Hin as (v & Hv).
    rewrite Hv. cbn [bind]. eexists. split; [reflexivity|].
    eapply narrows_trans; [exact Hb|].
    eapply narrows_setitem; [exact Hv | apply replace_shrinks].
Qed.

Lemma eliminate_narrows dm board_dict :
  board_ok board_dict = true ->
  exists after,
    Board.eliminate dm board_dict = Ok after /\ narrows board_dict after.
Proof.
  intros Hok. unfold Board.eliminate.
  apply (for_each_inv (fun a => narrows board_dict a)).
  - apply narrows_refl.
  - intros a box Hbox Ha.
    apply keys_where_In in Hbox.
    assert (Hboxes : In box Board.boxes) by now apply board_ok_keys in Hbox.
    assert (Hin : In box (keys a)) by (destruct Ha as [-> _]; auto).
    apply getitem_In_keys in Hin. destruct Hin as (digit & ->). cbn [bind].
    destruct (peers_in_boxes dm box Hboxes) as (ps & -> & Hps & _).
    cbn [bind].
    destruct (eliminate_peers_narrows digit ps a) as (a' & -> & Ha').
    + intros p Hp. apply (board_ok_keys a).
      * eapply narrows_board_ok; eauto.
      * auto.
    + eexists. split; [reflexivity|]. eapply narrows_trans; eauto.
Qed.

End Narrowing.

(** C7: on a state over the 81 boxes [eliminate] returns a state with the
    same keys in which every cell holds a part of what it held before: no
    candidate is added and no string grows.  A state that [eliminate] returns
    as it was is returned as it was again. *)
Theorem eliminate_monotone dm board_dict :
  board_ok board_dict = true ->
  exists after,
    Board.eliminate dm board_dict = Ok after /\
    keys after = keys board_dict /\
    (forall cell v, getitem board_dict cell = Ok v ->
       exists v', getitem after cell = Ok v' /\
                  incl v' v /\ length v' <= length v) /\
    (after = board_dict ->
     exists again, Board.eliminate dm after = Ok again /\ again = after).
Proof.
  intros Hok.
  destruct (eliminate_narrows dm board_dict Hok) as (after & He & Hk & Hn).
  exists after. split; [assumption|]. split; [assumption|]. split.
  - intros cell v Hv. destruct (Hn cell v Hv) as (v' & Hv' & Hi & Hl). eauto.
  - intros ->. eauto.
Qed.

(** * Naked twins and naked subsets *)

Section Removal.

Lemma str_mem_filter (p : pystr -> bool) u k :
  str_mem k (filter p u) = str_mem k u && p k.
Proof.
  apply eq_iff_eq_true.
  rewrite andb_true_iff, !str_mem_In, filter_In. tauto.
Qed.

Lemma not_subset_witness v values :
  chars_subset (char_set v) values = false ->
  exists x, In x v /\ ~ In x values.
Proof.
  intros H.
  assert (Hn : ~ incl v values).
  { intros Hi. apply not_true_iff_false in H. apply H.
    apply chars_subset_incl. intros c Hc. apply Hi. now apply char_set_In. }
  induction v as [|d v IH].
  - exfalso. apply Hn. intros c [].
  - destruct (chr_mem d values) eqn:E.
    + apply chr_mem_In in E. destruct IH as (x & Hx & Hnx).
      * apply not_true_iff_false. intros Hs. apply Hn.
        apply chars_subset_incl in Hs.
        intros c [<- | Hc]; [assumption|]. apply Hs. now apply char_set_In.
      * intros Hi. apply Hn. intros c [<- | Hc]; auto.
      * exists x. split; [now right | assumption].
    + exists d. split; [now left|]. rewrite <- chr_mem_In. congruence.
Qed.

Lemma subset_chars v values :
  chars_subset (char_set v) values = true <-> incl v values.
Proof.
  rewrite chars_subset_incl. split; intros H c Hc; apply H.
  - exact (proj2 (char_set_In c v) Hc).
  - exact (proj1 (char_set_In c v) Hc).
Qed.

Lemma stripped_shrinks values v : shrinks (stripped values v) v.
Proof.
  unfold stripped. destruct (negb _);
    [apply strip_values_shrinks | apply shrinks_refl].
Qed.

Lemma stripped_nonempty values v : v <> [] -> stripped values v <> [].
Proof.
  unfold stripped. intros Hv.
  destruct (chars_subset (char_set v) values) eqn:E; simpl; [assumption|].
  destruct (not_subset_witness v values E) as (x & Hx & Hn).
  intros Hnil. pose proof (strip_values_keeps values v x Hx Hn) as Hin.
  rewrite Hnil in Hin. destruct Hin.
Qed.

(** Of an entry that is stripped nothing of [values] is left. *)
Lemma stripped_clean values v x :
  ~ incl v values -> In x values -> ~ In x (stripped values v).
Proof.
  intros Hn Hx. unfold stripped.
  destruct (chars_subset (char_set v) values) eqn:E; simpl.
  - apply subset_chars in E. contradiction.
  - destruct (not_subset_witness v values E) as (y & Hy & Hny).
    rewrite (strip_values_filter values v y Hy Hny), filter_In.
    intros [_ H]. apply negb_true_iff in H.
    apply chr_mem_In in Hx. congruence.
Qed.

(** One turn of the loop over [boxes]. *)
Lemma remove_values_step values a box v0 :
  getitem a box = Ok v0 ->
  exists a1,
    (new_set <- getitem a box ;;
     if negb (chars_subset (char_set new_set) values) then
       let s := Board.strip_values values new_set in
       if negb (str_eqb new_set s) then Ok (setitem a box s) else Ok a
     else Ok a) = Ok a1 /\
    keys a1 = keys a /\
    forall k v, getitem a k = Ok v ->
      getitem a1 k = Ok (if str_eqb k box then stripped values v else v).
Proof.
  intros H0. rewrite H0. cbn [bind]. unfold stripped.
  destruct (chars_subset (char_set v0) values) eqn:Es; cbn [negb].
  - exists a. split; [reflexivity|]. split; [reflexivity|].
    intros k v Hk. destruct (str_eqb k box) eqn:E; [|assumption].
    apply str_eqb_eq in E. subst k.
    assert (v = v0) by congruence. subst v. now rewrite Es.
  - cbv zeta.
    destruct (str_eqb v0 (Board.strip_values values v0)) eqn:Eq; cbn [negb].
    + apply str_eqb_eq in Eq.
      exists a. split; [reflexivity|]. split; [reflexivity|].
      intros k v Hk. destruct (str_eqb k box) eqn:E; [|assumption].
      apply str_eqb_eq in E. subst k.
      assert (v = v0) by congruence. subst v. rewrite Es. cbn [negb].
      congruence.
    + eexists. split; [reflexivity|]. split.
      * apply keys_setitem, getitem_In_keys. eauto.
      * intros k v Hk. destruct (str_eqb k box) eqn:E.
        -- apply str_eqb_eq in E. subst k.
           assert (v = v0) by congruence. subst v.
           rewrite getitem_setitem_same, Es. reflexivity.
        -- apply str_eqb_neq in E.
           rewrite getitem_setitem_other by congruence. assumption.
Qed.

(** [_remove_values_in_boxes] strips the entries of [boxes] and leaves the
    others. *)
Lemma remove_values_spec values : forall boxes a,
  NoDup boxes ->
  (forall b, In b boxes -> In b (keys a)) ->
  exists a',
    Board._remove_values_in_boxes a values boxes = Ok a' /\
    keys a' = keys a /\
    forall k v, getitem a k = Ok v ->
      getitem a' k = Ok (if str_mem k boxes then stripped values v else v).
Proof.
  unfold Board._remove_values_in_boxes.
  induction boxes as [|box rest IH]; intros a Hnd Hin.
  - exists a. simpl. auto.
  - inversion Hnd as [|? ? Hnotin Hnd']; subst.
    destruct (proj2 (getitem_In_keys a box) (Hin box (or_introl eq_refl)))
      as (v0 & H0).
    destruct (remove_values_step values a box v0 H0) as (a1 & E1 & K1 & G1).
    cbn [for_each]. cbv zeta in E1. rewrite E1. cbn [bind].
    destruct (IH a1 Hnd') as (a' & E' & K' & G').
    { intros b Hb. rewrite K1. apply Hin. now right. }
    exists a'. split; [exact E'|]. split; [congruence|].
    intros k v Hk. specialize (G1 k v Hk).
    rewrite (G' k _ G1). f_equal.
    cbn [str_mem existsb]. fold (str_mem k rest).
    destruct (str_eqb k box) eqn:E; cbn [orb]; [|reflexivity].
    apply str_eqb_eq in E. subst k.
    apply str_mem_not_In in Hnotin. now rewrite Hnotin.
Qed.

Lemma naked_twins_unit_spec options unit a :
  NoDup unit ->
  (forall b, In b unit -> In b (keys a)) ->
  exists a',
    Board.naked_twins_unit options a unit = Ok a' /\
    keys a' = keys a /\
    forall k v, getitem a k = Ok v ->
      getitem a' k
      = Ok (if (length (twins_of options a unit) =? 2)
               && str_mem k unit && negb (str_eqb v options)
            then stripped (char_set options) v else v).
Proof.
  intros Hnd Hin. unfold Board.naked_twins_unit.
  rewrite (filter_r_ok _ (fun box => str_eqb (value a box) options)).
  2:{ intros b Hb. unfold value.
      destruct (proj2 (getitem_In_keys a b) (Hin b Hb)) as (v & ->).
      reflexivity. }
  cbn [bind]. fold (twins_of options a unit).
  destruct (length (twins_of options a unit) =? 2) eqn:E2.
  - destruct (remove_values_spec (char_set options)
                (filter (fun bx => negb (str_mem bx (twins_of options a unit)))
                        unit) a)
      as (a' & E' & K' & G').
    + now apply NoDup_filter.
    + intros b Hb. apply filter_In in Hb. apply Hin. tauto.
    + exists a'. split; [exact E'|]. split; [exact K'|].
      intros k v Hk. rewrite (G' k v Hk). f_equal.
      rewrite str_mem_filter. unfold twins_of. rewrite str_mem_filter.
      unfold value. rewrite Hk. cbn [andb].
      destruct (str_mem k unit), (str_eqb v options); reflexivity.
  - exists a. split; [reflexivity|]. split; [reflexivity|].
    intros k v Hk. exact Hk.
Qed.

Lemma naked_multi_unit_spec size leader options unit a :
  NoDup unit ->
  (forall b, In b unit -> In b (keys a)) ->
  exists a',
    Board.naked_multi_unit size leader options a unit = Ok a' /\
    keys a' = keys a /\
    forall k v, getitem a k = Ok v ->
      getitem a' k = Ok v \/ getitem a' k = Ok (stripped options v).
Proof.
  intros Hnd Hin. unfold Board.naked_multi_unit.
  match goal with |- context [for_each ?xs ?body ?init] =>
    destruct (for_each_inv (fun _ => True) body xs init I)
      as (subsets & -> & _)
  end.
  { intros acc b Hb _. apply filter_In in Hb.
    destruct (proj2 (getitem_In_keys a b) (Hin b (proj1 Hb))) as (v & ->).
    cbn [bind]. destruct (_ && _); eauto. }
  cbn [bind].
  destruct (Z.of_nat (length subsets) =? size - 1)%Z.
  - destruct (remove_values_spec options unit a Hnd Hin)
      as (a' & E' & K' & G').
    exists a'. split; [exact E'|]. split; [exact K'|].
    intros k v Hk. rewrite (G' k v Hk).
    destruct (str_mem k unit); auto.
  - exists a. split; [reflexivity|]. split; [reflexivity|]. auto.
Qed.

End Removal.

Section Keeping.

Lemma keeps_refl a : keeps a a.
Proof. split; [apply narrows_refl | auto]. Qed.

Lemma keeps_trans a b c : keeps a b -> keeps b c -> keeps a c.
Proof.
  intros [N1 E1] [N2 E2]. split; [eapply narrows_trans; eauto | auto].
Qed.

Lemma cellwise_keeps values a a' :
  keys a' = keys a ->
  (forall k v, getitem a k = Ok v ->
     getitem a' k = Ok v \/ getitem a' k = Ok (stripped values v)) ->
  keeps a a'.
Proof.
  intros K G. split; [split; [exact K|] |].
  - intros k v Hk. destruct (G k v Hk) as [H | H]; rewrite H; eexists;
      (split; [reflexivity|]); [apply shrinks_refl | apply stripped_shrinks].
  - intros Hne k v' Hk'.
    assert (Hin : In k (keys a))
      by (rewrite <- K; apply getitem_In_keys; eauto).
    apply getitem_In_keys in Hin. destruct Hin as (v & Hv).
    specialize (Hne k v Hv).
    destruct (G k v Hv) as [H | H]; rewrite H in Hk'; injection Hk' as <-;
      [assumption | now apply stripped_nonempty].
Qed.

Lemma naked_twins_unit_keeps options unit a :
  NoDup unit -> (forall b, In b unit -> In b (keys a)) ->
  exists a', Board.naked_twins_unit options a unit = Ok a' /\ keeps a a'.
Proof.
  intros Hnd Hin.
  destruct (naked_twins_unit_spec options unit a Hnd Hin) as (a' & E & K & G).
  exists a'. split; [exact E|].
  apply cellwise_keeps with (values := char_set options); [exact K|].
  intros k v Hk. rewrite (G k v Hk). destruct (_ && _); auto.
Qed.

Lemma naked_multi_unit_keeps size leader options unit a :
  NoDup unit -> (forall b, In b unit -> In b (keys a)) ->
  exists a',
    Board.naked_multi_unit size leader options a unit = Ok a' /\ keeps a a'.
Proof.
  intros Hnd Hin.
  destruct (naked_multi_unit_spec size leader options unit a Hnd Hin)
    as (a' & E & K & G).
  exists a'. split; [exact E|].
  now apply cellwise_keeps with (values := options).
Qed.

(** A loop over units whose every turn keeps the state keeps it. *)
Lemma units_loop_keeps dm (step : BoardState -> Unit -> result BoardState) :
  (forall unit a,
     NoDup unit -> (forall b, In b unit -> In b (keys a)) ->
     exists a', step a unit = Ok a' /\ keeps a a') ->
  forall us a,
    board_ok a = true ->
    incl us (Board.all_units dm) ->
    exists a', for_each us step a = Ok a' /\ keeps a a'.
Proof.
  intros Hstep us a Hok Hus.
  apply (for_each_inv (fun a' => keeps a a')).
  - apply keeps_refl.
  - intros b u Hu Hb.
    destruct (all_units_ok dm u (Hus u Hu)) as (Hnd & Hincl & _).
    destruct (Hstep u b Hnd) as (b' & E & Hb').
    + intros x Hx. apply (board_ok_keys b).
      * eapply narrows_board_ok; [apply Hb | assumption].
      * auto.
    + exists b'. split; [exact E|]. eapply keeps_trans; eauto.
Qed.

Lemma units_in_all_units dm box :
  In box Board.boxes ->
  exists us, Board.units dm box = Ok us /\ incl us (Board.all_units dm) /\
             forall u, In u us <-> In u (Board.all_units dm) /\ In box u.
Proof.
  intros H. rewrite (units_of_box dm box H). eexists. split; [reflexivity|].
  split.
  - intros u Hu. apply filter_In in Hu. tauto.
  - intros u. rewrite filter_In, str_mem_In. tauto.
Qed.

Lemma naked_twins_box_keeps dm a box :
  board_ok a = true -> In box Board.boxes ->
  exists a', Board.naked_twins_box dm a box = Ok a' /\ keeps a a'.
Proof.
  intros Hok Hbox. unfold Board.naked_twins_box.
  destruct (board_ok_getitem a box Hok Hbox) as (options & ->). cbn [bind].
  destruct (units_in_all_units dm box Hbox) as (us & -> & Hus & _).
  cbn [bind].
  apply (units_loop_keeps dm); auto.
  intros unit b. apply naked_twins_unit_keeps.
Qed.

Lemma naked_multi_box_keeps dm size a box :
  board_ok a = true -> In box Board.boxes ->
  exists a', Board.naked_multi_box dm size a box = Ok a' /\ keeps a a'.
Proof.
  intros Hok Hbox. unfold Board.naked_multi_box.
  destruct (board_ok_getitem a box Hok Hbox) as (v & ->). cbn [bind].
  destruct (units_in_all_units dm box Hbox) as (us & -> & Hus & _).
  cbn [bind].
  apply (units_loop_keeps dm); auto.
  intros unit b. apply naked_multi_unit_keeps.
Qed.

(** A loop over boxes of the state whose every turn keeps the state keeps
    it. *)
Lemma boxes_loop_keeps (step : BoardState -> pystr -> result BoardState) :
  (forall a box,
     board_ok a = true -> In box Board.boxes ->
     exists a', step a box = Ok a' /\ keeps a a') ->
  forall bs a,
    board_ok a = true ->
    incl bs Board.boxes ->
    exists a', for_each bs step a = Ok a' /\ keeps a a'.
Proof.
  intros Hstep bs a Hok Hbs.
  apply (for_each_inv (fun a' => keeps a a')).
  - apply keeps_refl.
  - intros b box Hbox Hb.
    destruct (Hstep b box) as (b' & E & Hb').
    + eapply narrows_board_ok; [apply Hb | assumption].
    + auto.
    + exists b'. split; [exact E|]. eapply keeps_trans; eauto.
Qed.

Lemma keys_where_boxes p a :
  board_ok a = true -> incl (Board.keys_where p a) Board.boxes.
Proof.
  intros Hok k Hk. apply (board_ok_keys a); [assumption|].
  eapply keys_where_In; eauto.
Qed.

Lemma naked_twins_keeps dm a :
  board_ok a = true ->
  exists a', Board.naked_twins dm a = Ok a' /\ keeps a a'.
Proof.
  intros Hok. unfold Board.naked_twins.
  apply boxes_loop_keeps; [|assumption | now apply keys_where_boxes].
  intros b box. apply naked_twins_box_keeps.
Qed.

Lemma naked_multi_keeps dm a size :
  board_ok a = true ->
  exists a', Board.naked_multi dm a size = Ok a' /\ keeps a a'.
Proof.
  intros Hok. unfold Board.naked_multi.
  apply boxes_loop_keeps; [|assumption | now apply keys_where_boxes].
  intros b box. apply naked_multi_box_keeps.
Qed.

End Keeping.

(** C10: on a state over the 81 boxes in which no cell is empty,
    [naked_twins] and [naked_multi], for any [size], return a state in which
    no cell is empty. *)
Theorem naked_reductions_empty_no_cell dm board_dict size :
  board_ok board_dict = true ->
  nonempty_cells board_dict ->
  (exists after,
     Board.naked_twins dm board_dict = Ok after /\ nonempty_cells after) /\
  (exists after,
     Board.naked_multi dm board_dict size = Ok after /\ nonempty_cells after).
Proof.
  intros Hok Hne. split.
  - destruct (naked_twins_keeps dm board_dict Hok) as (a' & E & _ & H).
    eauto.
  - destruct (naked_multi_keeps dm board_dict size Hok) as (a' & E & _ & H).
    eauto.
Qed.

(** * What [naked_twins] removes *)

Section Twins.

Variable options : pystr.

Lemma stripped_same_or_clean v :
  stripped (char_set options) v = v \/
  clean options (stripped (char_set options) v).
Proof.
  destruct (chars_subset (char_set v) (char_set options)) eqn:E.
  - left. unfold stripped. now rewrite E.
  - right. destruct (not_subset_witness _ _ E) as (x & Hx & Hn).
    assert (Hni : ~ incl v (char_set options)).
    { intros Hi. apply subset_chars in Hi. congruence. }
    split.
    + exists x. split.
      * unfold stripped. rewrite E. cbn [negb].
        now apply strip_values_keeps.
      * intros Ho. apply Hn. now apply char_set_In.
    + intros y Hy. apply stripped_clean; [assumption|].
      now apply char_set_In.
Qed.

Lemma clean_not_options v : clean options v -> v <> options.
Proof. intros [(x & Hx & Hn) _] ->. contradiction. Qed.

Lemma twin_step_next v v' v'' :
  twin_step options v v' ->
  v'' = v' \/ (v' <> options /\ v'' = stripped (char_set options) v') ->
  twin_step options v v''.
Proof.
  intros H [-> | [Hne ->]]; [assumption|].
  destruct (stripped_same_or_clean v') as [-> | Hc]; [assumption|].
  right. split; [|assumption].
  destruct H as [-> | [H _]]; assumption.
Qed.

Lemma twin_step_options v v' :
  twin_step options v v' -> (v' = options <-> v = options).
Proof.
  intros [-> | [Hne Hc]]; [tauto|].
  apply clean_not_options in Hc. tauto.
Qed.

Lemma twin_step_clean v v' :
  twin_step options v v' -> ~ incl v options -> v' <> options ->
  forall x, In x options -> ~ In x (stripped (char_set options) v').
Proof.
  intros H Hni Hne x Hx.
  destruct H as [-> | [_ Hc]].
  - apply stripped_clean; [|now apply char_set_In].
    intros Hi. apply Hni. intros c Hc. now apply char_set_In, Hi.
  - destruct (stripped_same_or_clean v') as [-> | [_ Hc']].
    + now apply Hc.
    + now apply Hc'.
Qed.

(** One turn of the loop over the units of the box, seen cell by cell. *)
Lemma naked_twins_unit_turn unit a :
  NoDup unit -> (forall b, In b unit -> In b (keys a)) ->
  exists a',
    Board.naked_twins_unit options a unit = Ok a' /\
    keeps a a' /\
    (forall k v, getitem a k = Ok v ->
       exists v', getitem a' k = Ok v' /\
         (v' = v \/ (v <> options /\ v' = stripped (char_set options) v))) /\
    (length (twins_of options a unit) = 2 ->
     forall k v, In k unit -> getitem a k = Ok v -> v <> options ->
       getitem a' k = Ok (stripped (char_set options) v)).
Proof.
  intros Hnd Hin.
  destruct (naked_twins_unit_spec options unit a Hnd Hin) as (a' & E & K & G).
  exists a'. split; [exact E|]. split; [|split].
  - apply cellwise_keeps with (values := char_set options); [exact K|].
    intros k v Hk. rewrite (G k v Hk). destruct (_ && _); auto.
  - intros k v Hk. rewrite (G k v Hk). eexists. split; [reflexivity|].
    destruct (str_eqb v options) eqn:Ev.
    + rewrite andb_false_r. now left.
    + destruct (_ && _); [right | now left].
      split; [now apply str_eqb_neq | reflexivity].
  - intros H2 k v Hk Hv Hne. rewrite (G k v Hv). f_equal.
    apply Nat.eqb_eq in H2. rewrite H2.
    apply str_mem_In in Hk. rewrite Hk.
    apply str_eqb_neq in Hne. now rewrite Hne.
Qed.

Lemma twin_steps_turn a b c :
  twin_steps options a b ->
  (forall k v, getitem b k = Ok v ->
     exists v', getitem c k = Ok v' /\
       (v' = v \/ (v <> options /\ v' = stripped (char_set options) v))) ->
  twin_steps options a c.
Proof.
  intros Hab Hbc k v Hk.
  destruct (Hab k v Hk) as (v1 & H1 & S1).
  destruct (Hbc k v1 H1) as (v2 & H2 & S2).
  exists v2. split; [assumption|].
  eapply twin_step_next; eauto.
Qed.

(** The units of the box that come before the unit of the pair. *)
Lemma naked_twins_units_before dm us a :
  board_ok a = true ->
  incl us (Board.all_units dm) ->
  exists a',
    for_each us (Board.naked_twins_unit options) a = Ok a' /\
    keeps a a' /\ twin_steps options a a'.
Proof.
  intros Hok Hus.
  apply (for_each_inv (fun a' => keeps a a' /\ twin_steps options a a')).
  - split; [apply keeps_refl|]. intros k v Hk. exists v.
    split; [assumption | now left].
  - intros b u Hu [Hkeep Hsteps].
    destruct (all_units_ok dm u (Hus u Hu)) as (Hnd & Hincl & _).
    destruct (naked_twins_unit_turn u b Hnd) as (b' & E & Hk' & Hturn & _).
    + intros x Hx. apply (board_ok_keys b).
      * eapply narrows_board_ok; [apply Hkeep | assumption].
      * auto.
    + exists b'. split; [exact E|]. split.
      * eapply keeps_trans; eauto.
      * eapply twin_steps_turn; eauto.
Qed.

Lemma twins_exactly_two a unit b1 b2 :
  NoDup unit -> In b1 unit -> In b2 unit -> b1 <> b2 ->
  (forall c, In c unit -> (value a c = options <-> c = b1 \/ c = b2)) ->
  length (twins_of options a unit) = 2.
Proof.
  intros Hnd H1 H2 Hne Hiff.
  change 2 with (length [b1; b2]). apply Permutation_length.
  apply NoDup_Permutation.
  - now apply NoDup_filter.
  - constructor; [intros [H | []]; congruence|].
    constructor; [intros [] | constructor].
  - intros c. unfold twins_of. rewrite filter_In, str_eqb_eq. simpl. split.
    + intros [Hc Hv]. apply Hiff in Hv; [|assumption].
      destruct Hv as [-> | ->]; auto.
    + intros [<- | [<- | []]]; (split; [assumption|]); apply Hiff; auto.
Qed.

End Twins.

(** The turn of [naked_twins] for a box [b1] that forms a pair with [b2] in
    [unit]. *)
Lemma naked_twins_box_pair dm a unit b1 b2 options :
  board_ok a = true ->
  In unit (Board.all_units dm) -> In b1 unit -> In b2 unit -> b1 <> b2 ->
  getitem a b1 = Ok options ->
  getitem a b2 = Ok options ->
  (forall c, In c unit -> getitem a c = Ok options -> c = b1 \/ c = b2) ->
  exists a',
    Board.naked_twins_box dm a b1 = Ok a' /\
    keeps a a' /\
    forall c v, In c unit -> c <> b1 -> c <> b2 ->
      getitem a c = Ok v -> ~ incl v options ->
      exists v', getitem a' c = Ok v' /\
                 forall x, In x options -> ~ In x v'.
Proof.
  intros Hok Hunit H1 H2 Hne Hb1 Hb2 Honly.
  destruct (all_units_ok dm unit Hunit) as (Hnd & Hincl & _).
  assert (Hbox : In b1 Board.boxes) by auto.
  unfold Board.naked_twins_box. rewrite Hb1. cbn [bind].
  destruct (units_in_all_units dm b1 Hbox) as (us & -> & Hus & Hmem).
  cbn [bind].
  destruct (in_split unit us (proj2 (Hmem unit) (conj Hunit H1)))
    as (us1 & us2 & ->).
  rewrite for_each_app. cbn [for_each].
  (* the units before *)
  destruct (naked_twins_units_before options dm us1 a Hok)
    as (a1 & -> & Hk1 & Hs1).
  { intros u Hu. apply Hus, in_or_app. now left. }
  cbn [bind].
  assert (Hok1 : board_ok a1 = true)
    by (eapply narrows_board_ok; [apply Hk1 | assumption]).
  (* the unit of the pair *)
  destruct (naked_twins_unit_turn options unit a1 Hnd)
    as (a2 & -> & Hk2 & _ & Hexact).
  { intros x Hx. apply (board_ok_keys a1); auto. }
  cbn [bind].
  assert (Hok2 : board_ok a2 = true)
    by (eapply narrows_board_ok; [apply Hk2 | assumption]).
  (* the units after *)
  destruct (units_loop_keeps dm (Board.naked_twins_unit options)
              (fun u b => naked_twins_unit_keeps options u b) us2 a2 Hok2)
    as (a3 & -> & Hk3).
  { intros u Hu. apply Hus, in_or_app. right. now right. }
  exists a3. split; [reflexivity|]. split.
  { eapply keeps_trans; [exact Hk1|]. eapply keeps_trans; eauto. }
  (* the cells of the unit as they are when its turn comes *)
  assert (Hcell : forall c, In c unit ->
            exists v v', getitem a c = Ok v /\ getitem a1 c = Ok v' /\
                         twin_step options v v').
  { intros c Hc.
    destruct (board_ok_getitem a c Hok (Hincl c Hc)) as (v & Hv).
    destruct (Hs1 c v Hv) as (v' & Hv' & Hstep). eauto. }
  assert (Htwo : length (twins_of options a1 unit) = 2).
  { apply twins_exactly_two with (b1 := b1) (b2 := b2); auto.
    intros c Hc. destruct (Hcell c Hc) as (v & v' & Hv & Hv' & Hstep).
    unfold value. rewrite Hv'. rewrite (twin_step_options options v v' Hstep).
    split.
    - intros ->. auto.
    - intros [-> | ->]; congruence. }
  intros c v Hc Hc1 Hc2 Hv Hni.
  destruct (Hcell c Hc) as (v0 & v' & Hv0 & Hv' & Hstep).
  assert (v0 = v) by congruence. subst v0.
  assert (Hv'ne : v' <> options).
  { intros ->. apply (twin_step_options options v options) in Hstep.
    assert (v = options) by tauto. subst v.
    destruct (Honly c Hc Hv); contradiction. }
  specialize (Hexact Htwo c v' Hc Hv' Hv'ne).
  destruct Hk3 as [[_ Hn3] _].
  destruct (Hn3 c _ Hexact) as (v3 & Hv3 & Hi3 & _).
  exists v3. split; [exact Hv3|].
  intros x Hx Hin. apply Hi3 in Hin.
  revert Hin. now apply (twin_step_clean options v v').
Qed.

(** C5, as amended: let [b1] be a box that had two candidates in the input,
    and [reached] the state when the loop of [naked_twins] comes to [b1].  If
    [b1] and another box [b2] of a unit then hold the same string and no
    third box of the unit holds it, [naked_twins] returns a state in which
    no value of that string is left in any other box of the unit whose
    candidates, in [reached], were not all among those values. *)
Theorem naked_twins_removes_pair_values
  dm board_dict pre b1 post reached unit b2 options :
  board_ok board_dict = true ->
  Board.keys_where (fun v => length v =? 2) board_dict = pre ++ b1 :: post ->
  for_each pre (Board.naked_twins_box dm) board_dict = Ok reached ->
  In unit (Board.all_units dm) -> In b1 unit -> In b2 unit -> b1 <> b2 ->
  getitem reached b1 = Ok options ->
  getitem reached b2 = Ok options ->
  (forall c, In c unit -> getitem reached c = Ok options ->
             c = b1 \/ c = b2) ->
  exists after,
    Board.naked_twins dm board_dict = Ok after /\
    forall c v, In c unit -> c <> b1 -> c <> b2 ->
      getitem reached c = Ok v -> ~ incl v options ->
      exists v', getitem after c = Ok v' /\
                 forall x, In x options -> ~ In x v'.
Proof.
  intros Hok Hsplit Hpre Hunit H1 H2 Hne Hb1 Hb2 Honly.
  pose proof (keys_where_boxes (fun v => length v =? 2) board_dict Hok)
    as Hboxes.
  rewrite Hsplit in Hboxes.
  destruct (boxes_loop_keeps (Board.naked_twins_box dm)
              (fun a box => naked_twins_box_keeps dm a box)
              pre board_dict Hok) as (r & Er & Kr).
  { intros k Hk. apply Hboxes, in_or_app. now left. }
  rewrite Hpre in Er. injection Er as <-.
  assert (Hokr : board_ok reached = true)
    by (eapply narrows_board_ok; [apply Kr | assumption]).
  destruct (naked_twins_box_pair dm reached unit b1 b2 options)
    as (a1 & E1 & K1 & Hclean); auto.
  assert (Hok1 : board_ok a1 = true)
    by (eapply narrows_board_ok; [apply K1 | assumption]).
  destruct (boxes_loop_keeps (Board.naked_twins_box dm)
              (fun a box => naked_twins_box_keeps dm a box)
              post a1 Hok1) as (after & Ea & Ka).
  { intros k Hk. apply Hboxes, in_or_app. right. now right. }
  exists after. split.
  - unfold Board.naked_twins. rewrite Hsplit, for_each_app, Hpre.
    cbn [bind for_each]. rewrite E1. cbn [bind]. exact Ea.
  - intros c v Hc Hc1 Hc2 Hv Hni.
    destruct (Hclean c v Hc Hc1 Hc2 Hv Hni) as (v1 & Hv1 & Hno).
    destruct Ka as [[_ Hn] _].
    destruct (Hn c v1 Hv1) as (v2 & Hv2 & Hi & _).
    exists v2. split; [exact Hv2|].
    intros x Hx Hin. apply (Hno x Hx). now apply Hi.
Qed.

(** * The order in which a set is run through *)

Section SetOrder.

(** Two dictionaries with the same keys, each once, and the same entries are
    the same dictionary. *)
Lemma dict_ext : forall (a b : BoardState),
  keys a = keys b -> NoDup (keys a) ->
  (forall k, In k (keys a) -> getitem a k = getitem b k) ->
  a = b.
Proof.
  induction a as [|[k va] a IH]; intros [|[k' vb] b] K Hnd H;
    try discriminate; [reflexivity|].
  injection K as <- Kt.
  inversion Hnd as [|? ? Hnot Hnd']; subst.
  pose proof (H k (or_introl eq_refl)) as Hk.
  simpl in Hk. rewrite str_eqb_refl in Hk. injection Hk as <-.
  f_equal. apply IH; [assumption | assumption|].
  intros k0 H0.
  assert (Hne : str_eqb k0 k = false)
    by (apply str_eqb_neq; intros ->; contradiction).
  specialize (H k0 (or_intror H0)). simpl in H. now rewrite Hne in H.
Qed.

(** The loop over the peers of a box in [eliminate], cell by cell. *)
Lemma eliminate_peers_spec digit : forall ps a,
  NoDup ps ->
  (forall p, In p ps -> In p (keys a)) ->
  exists a',
    for_each ps
      (fun board_dict peer =>
         v <- getitem board_dict peer ;;
         Ok (setitem board_dict peer (replace v digit)))
      a = Ok a' /\
    keys a' = keys a /\
    forall k v, getitem a k = Ok v ->
      getitem a' k = Ok (if str_mem k ps then replace v digit else v).
Proof.
  induction ps as [|p ps IH]; intros a Hnd Hin.
  - exists a. simpl. auto.
  - inversion Hnd as [|? ? Hnot Hnd']; subst.
    destruct (proj2 (getitem_In_keys a p) (Hin p (or_introl eq_refl)))
      as (v0 & H0).
    cbn [for_each]. rewrite H0. cbn [bind].
    assert (K1 : keys (setitem a p (replace v0 digit)) = keys a)
      by (apply keys_setitem, getitem_In_keys; eauto).
    destruct (IH (setitem a p (replace v0 digit)) Hnd')
      as (a' & E' & K' & G').
    { intros q Hq. rewrite K1. apply Hin. now right. }
    exists a'. split; [exact E'|]. split; [congruence|].
    intros k v Hk. cbn [str_mem existsb]. fold (str_mem k ps).
    destruct (str_eqb k p) eqn:E; cbn [orb].
    + apply str_eqb_eq in E. subst k.
      assert (v = v0) by congruence. subst v.
      rewrite (G' p (replace v0 digit)) by apply getitem_setitem_same.
      apply str_mem_not_In in Hnot. now rewrite Hnot.
    + apply str_eqb_neq in E. apply G'.
      rewrite getitem_setitem_other by congruence. assumption.
Qed.

(** [peers(box)] is a set; whatever order its loop takes, [eliminate] ends
    its turn for [box] in the same state. *)
Lemma eliminate_peers_any_order digit ps ps' a :
  NoDup (keys a) -> NoDup ps -> Permutation ps ps' ->
  (forall p, In p ps -> In p (keys a)) ->
  for_each ps
    (fun board_dict peer =>
       v <- getitem board_dict peer ;;
       Ok (setitem board_dict peer (replace v digit)))
    a
  = for_each ps'
      (fun board_dict peer =>
         v <- getitem board_dict peer ;;
         Ok (setitem board_dict peer (replace v digit)))
      a.
Proof.
  intros Hka Hnd Hperm Hin.
  destruct (eliminate_peers_spec digit ps a Hnd Hin) as (a1 & -> & K1 & G1).
  destruct (eliminate_peers_spec digit ps' a) as (a2 & -> & K2 & G2).
  - eapply Permutation_NoDup; eauto.
  - intros p Hp. apply Hin. eapply Permutation_in; [symmetry|]; eauto.
  - f_equal. apply dict_ext; [congruence | now rewrite K1|].
    intros k Hk. rewrite K1 in Hk. apply getitem_In_keys in Hk.
    destruct Hk as (v & Hv). rewrite (G1 k v Hv), (G2 k v Hv). f_equal.
    assert (E : str_mem k ps = str_mem k ps').
    { apply eq_iff_eq_true. rewrite !str_mem_In.
      split; apply Permutation_in; [|symmetry]; assumption. }
    now rewrite E.
Qed.

End SetOrder.

(** * Termination of [reduce_puzzle] and [search] *)

Section Termination.

Lemma board_ok_NoDup a : board_ok a = true -> NoDup (keys a).
Proof.
  unfold board_ok. rewrite andb_true_iff. intros [H _].
  now apply distinct_NoDup.
Qed.

Lemma getitem_of_entry (d : BoardState) k v :
  NoDup (keys d) -> In (k, v) d -> getitem d k = Ok v.
Proof.
  induction d as [|[k' v'] d IH]; simpl; [intros _ []|].
  intros Hnd [[= -> ->] | Hin].
  - now rewrite str_eqb_refl.
  - inversion Hnd as [|? ? Hnot Hnd']; subst.
    destruct (str_eqb k k') eqn:E; [|auto].
    apply str_eqb_eq in E. subst k'. exfalso. apply Hnot.
    unfold keys. apply in_map_iff. exists (k, v). auto.
Qed.

(** The loop over the digits of [only_choice], for one unit. *)
Lemma only_choice_unit_narrows unit a :
  (forall b, In b unit -> In b (keys a)) ->
  exists a',
    for_each (seq 1 9)
      (fun board_dict number =>
         possible_boxes <-
           filter_r (fun box =>
                       v <- getitem board_dict box ;;
                       Ok (contains v (str_of_digit number)))
                    unit ;;
         match possible_boxes with
         | [box] => Ok (setitem board_dict box (str_of_digit number))
         | _ => Ok board_dict
         end)
      a = Ok a' /\ narrows a a'.
Proof.
  intros Hin.
  apply (for_each_inv (fun a' => narrows a a')); [apply narrows_refl|].
  intros b number _ Hb.
  assert (Hinb : forall x, In x unit -> In x (keys b))
    by (destruct Hb as [-> _]; auto).
  rewrite (filter_r_ok _
             (fun box => contains (value b box) (str_of_digit number))).
  2:{ intros x Hx. unfold value.
      destruct (proj2 (getitem_In_keys b x) (Hinb x Hx)) as (v & ->).
      reflexivity. }
  cbn [bind].
  destruct (filter _ unit) as [|box [|? ?]] eqn:Ef;
    try (exists b; split; [reflexivity | assumption]).
  assert (Hbox : In box (filter
                           (fun box => contains (value b box)
                                                (str_of_digit number)) unit))
    by (rewrite Ef; now left).
  apply filter_In in Hbox. destruct Hbox as [Hu Hc].
  destruct (proj2 (getitem_In_keys b box) (Hinb box Hu)) as (v & Hv).
  unfold value in Hc. rewrite Hv in Hc.
  unfold str_of_digit in *. rewrite contains_single in Hc.
  apply chr_mem_In in Hc.
  eexists. split; [reflexivity|].
  eapply narrows_trans; [exact Hb|].
  eapply narrows_setitem; [exact Hv|].
  split.
  - intros c [<- | []]. assumption.
  - destruct v; [destruct Hc | simpl; lia].
Qed.

Lemma only_choice_narrows dm a :
  board_ok a = true ->
  exists a', Board.only_choice dm a = Ok a' /\ narrows a a'.
Proof.
  intros Hok. unfold Board.only_choice.
  apply (for_each_inv (fun a' => narrows a a')); [apply narrows_refl|].
  intros b unit Hunit Hb.
  destruct (all_units_ok dm unit Hunit) as (_ & Hincl & _).
  destruct (only_choice_unit_narrows unit b) as (b' & -> & Hb').
  - intros x Hx. apply (board_ok_keys b); [|auto].
    eapply narrows_board_ok; eauto.
  - exists b'. split; [reflexivity|]. eapply narrows_trans; eauto.
Qed.

Lemma propagate_narrows dm a :
  board_ok a = true ->
  exists a', propagate dm a = Ok a' /\ narrows a a'.
Proof.
  intros Hok. unfold propagate.
  destruct (eliminate_narrows dm a Hok) as (a1 & -> & H1). cbn [bind].
  destruct (only_choice_narrows dm a1) as (a2 & -> & H2).
  - eapply narrows_board_ok; eauto.
  - exists a2. split; [reflexivity|]. eapply narrows_trans; eauto.
Qed.

Lemma num_solved_boxes_cons k v (d : BoardState) :
  Board.num_solved_boxes ((k, v) :: d)
  = (if length v =? 1 then 1 else 0) + Board.num_solved_boxes d.
Proof.
  unfold Board.num_solved_boxes, Board.keys_where. simpl.
  destruct (length v =? 1); reflexivity.
Qed.

(** A narrowing does not lengthen the state, and one that leaves its length
    leaves the number of solved boxes. *)
Lemma narrows_measure : forall a b,
  NoDup (keys a) -> narrows a b ->
  total_length b <= total_length a /\
  (total_length a <= total_length b ->
   Board.num_solved_boxes b = Board.num_solved_boxes a).
Proof.
  induction a as [|[k va] a IH]; intros b Hnd [K H].
  - destruct b; [|discriminate]. split; [lia | reflexivity].
  - destruct b as [|[k' vb] b]; [discriminate|].
    injection K as -> Kt.
    inversion Hnd as [|? ? Hnot Hnd']; subst.
    assert (Hhead : shrinks vb va).
    { destruct (H k va) as (v' & Hv' & Hs).
      - simpl. now rewrite str_eqb_refl.
      - simpl in Hv'. rewrite str_eqb_refl in Hv'. congruence. }
    assert (Htail : narrows a b).
    { split; [exact Kt|]. intros k0 v0 H0.
      assert (Hne : str_eqb k0 k = false).
      { apply str_eqb_neq. intros ->. apply Hnot.
        apply getitem_In_keys. eauto. }
      destruct (H k0 v0) as (v' & Hv' & Hs).
      - simpl. now rewrite Hne.
      - simpl in Hv'. rewrite Hne in Hv'. eauto. }
    destruct (IH b Hnd' Htail) as [IH1 IH2].
    destruct Hhead as [_ Hlen].
    unfold total_length in *. simpl. rewrite !num_solved_boxes_cons.
    split; [lia|]. intros Hle.
    assert (length vb = length va) by lia.
    rewrite IH2 by lia. now rewrite H0.
Qed.

(** [reduce_puzzle] returns as soon as its budget exceeds the total length
    of the entries: a pass that changes the number of solved boxes shortens
    some entry. *)
Lemma reduce_puzzle_terminates dm : forall fuel a,
  board_ok a = true -> total_length a < fuel ->
  exists r,
    Board.reduce_puzzle dm fuel a = Ok r /\
    forall b, r = Some b -> narrows a b.
Proof.
  induction fuel as [|fuel IH]; intros a Hok Hlt; [lia|].
  rewrite reduce_puzzle_unfold.
  destruct (propagate_narrows dm a Hok) as (a' & -> & Hn). cbn [bind].
  destruct (Board.num_solved_boxes a' =? 0).
  - exists None. split; [reflexivity | discriminate].
  - destruct (Board.num_solved_boxes a =? Board.num_solved_boxes a') eqn:E.
    + exists (Some a'). split; [reflexivity|]. now intros b [= <-].
    + apply Nat.eqb_neq in E.
      destruct (narrows_measure a a' (board_ok_NoDup a Hok) Hn) as [H1 H2].
      assert (Hlt' : total_length a' < fuel).
      { destruct (Nat.le_gt_cases (total_length a) (total_length a'));
          [|lia].
        exfalso. apply E. symmetry. auto. }
      destruct (IH a' (narrows_board_ok a a' Hn Hok) Hlt') as (r & Hr & Hb).
      exists r. split; [exact Hr|].
      intros b Hb'. eapply narrows_trans; eauto.
Qed.

Lemma validate_returns dm a :
  board_ok a = true -> exists valid, Board.validate dm a = Ok valid.
Proof.
  intros Hok. unfold Board.validate.
  assert (H : forall u, In u (Board.all_units dm) -> incl u Board.boxes)
    by (intros u Hu; now destruct (all_units_ok dm u Hu) as (_ & ? & _)).
  induction (Board.all_units dm) as [|u us IH]; simpl; [eauto|].
  rewrite (map_r_ok (getitem a) (value a)).
  - simpl. destruct (set_eqb _ _); simpl; [|eauto].
    apply IH. intros w Hw. apply H. now right.
  - intros x Hx. unfold value.
    destruct (board_ok_getitem a x Hok) as (v & ->); [|reflexivity].
    apply (H u); [now left | assumption].
Qed.

Lemma insert_by_In {A} (key : A -> nat) x y xs :
  In y (insert_by key x xs) -> y = x \/ In y xs.
Proof.
  induction xs as [|z zs IH]; simpl.
  - intros [<- | []]. now left.
  - destruct (key x <=? key z); simpl.
    + intros [<- | H]; auto.
    + intros [<- | H]; auto. destruct (IH H); auto.
Qed.

Lemma sorted_In {A} (key : A -> nat) y xs :
  In y (sorted key xs) -> In y xs.
Proof.
  induction xs as [|x xs IH]; simpl; [auto|].
  intros H. apply insert_by_In in H. destruct H as [-> | H]; auto.
Qed.

Lemma possibility_entry a box :
  NoDup (keys a) -> In box (Board.sorted_box_possibilities a) ->
  exists v, getitem a box = Ok v /\ 1 < length v.
Proof.
  intros Hnd Hin. unfold Board.sorted_box_possibilities in Hin.
  apply in_map_iff in Hin. destruct Hin as ([k v] & <- & Hin).
  apply sorted_In, filter_In in Hin. destruct Hin as [Hin Hlen].
  exists v. split; [now apply getitem_of_entry | now apply Nat.ltb_lt].
Qed.

Lemma total_length_setitem : forall (a : BoardState) k v v',
  getitem a k = Ok v ->
  total_length (setitem a k v') + length v = total_length a + length v'.
Proof.
  unfold total_length.
  induction a as [|[k0 v0] a IH]; simpl; intros k v v'; [discriminate|].
  destruct (str_eqb k k0); simpl.
  - intros [= ->]. lia.
  - intros H. specialize (IH k v v' H). lia.
Qed.

Lemma try_choices_returns recurse reduced box choices :
  (forall c, In c choices ->
     exists r, recurse (setitem reduced box [c]) = Ok r) ->
  exists r, Board.try_choices recurse reduced box choices = Ok r.
Proof.
  induction choices as [|c cs IH]; simpl; intros H; [eauto|].
  destruct (H c (or_introl eq_refl)) as ([r|] & ->); simpl; [eauto|].
  apply IH. intros c' Hc'. apply H. now right.
Qed.

(** [search] returns, with a state or with [None], on every state over the
    81 boxes, as soon as its budget exceeds the total length of the
    entries: no lookup fails and every branch shortens the state. *)
Theorem search_terminates dm : forall fuel a,
  board_ok a = true -> total_length a < fuel ->
  exists r, Board.search dm fuel a = Ok r.
Proof.
  induction fuel as [|fuel IH]; intros a Hok Hlt; [lia|].
  rewrite search_unfold.
  destruct (reduce_puzzle_terminates dm (S fuel) a Hok Hlt)
    as ([reduced|] & -> & Hn); cbn [bind]; [|eauto].
  specialize (Hn reduced eq_refl).
  assert (Hokr : board_ok reduced = true)
    by (eapply narrows_board_ok; eauto).
  destruct (narrows_measure a reduced (board_ok_NoDup a Hok) Hn) as [Hle _].
  destruct (Board.num_solved_boxes reduced =? Board.num_boxes).
  - destruct (validate_returns dm reduced Hokr) as ([|] & ->);
      cbn [bind]; eauto.
  - destruct (Board.sorted_box_possibilities reduced) as [|box rest] eqn:Ep;
      [eauto|].
    destruct (possibility_entry reduced box (board_ok_NoDup _ Hokr))
      as (v & Hv & Hlen); [rewrite Ep; now left|].
    rewrite Hv. cbn [bind].
    apply try_choices_returns. intros c _.
    apply IH.
    + eapply board_ok_same_keys; [|exact Hokr].
      apply keys_setitem, getitem_In_keys. eauto.
    + pose proof (total_length_setitem reduced box v [c] Hv) as Ht.
      simpl in Ht. lia.
Qed.

End Termination.

(** * The statements at sample states *)

Lemma nonempty_cells_check board_dict :
  has_empty_cell board_dict = false -> nonempty_cells board_dict.
Proof.
  unfold has_empty_cell, nonempty_cells.
  induction board_dict as [|[k' v'] d IH]; simpl; [discriminate|].
  rewrite orb_false_iff. intros [Hv Hd] k v.
  destruct (str_eqb k k').
  - intros [= <-] ->. discriminate.
  - now apply IH.
Qed.

(** C5 as stated fails in three ways.  A solved cell whose value is one of
    the pair's keeps it; three cells with the same two candidates are no
    pair for the code, and the rest of the unit keeps both values; and a
    pair of the input that an earlier pair has narrowed is not found. *)
Lemma naked_twins_leaves_pair_values :
  (In (py "A1") row_A /\ In (py "A2") row_A /\ In (py "A3") row_A /\
   getitem pair_and_single_board (py "A1") = Ok (py "12") /\
   getitem pair_and_single_board (py "A2") = Ok (py "12") /\
   exists after,
     Board.naked_twins false pair_and_single_board = Ok after /\
     getitem after (py "A3") = Ok (py "1")) /\
  (In (py "A4") row_A /\
   getitem triple_board (py "A1") = Ok (py "12") /\
   getitem triple_board (py "A2") = Ok (py "12") /\
   exists after,
     Board.naked_twins false triple_board = Ok after /\
     getitem after (py "A4") = Ok (py "123456789")) /\
  (In (py "D1") row_D /\ In (py "D2") row_D /\ In (py "D3") row_D /\
   getitem crossing_pairs_board (py "D1") = Ok (py "12") /\
   getitem crossing_pairs_board (py "D2") = Ok (py "12") /\
   exists after,
     Board.naked_twins false crossing_pairs_board = Ok after /\
     getitem after (py "D3") = Ok (py "123456789")).
Proof.
  repeat split;
    try (apply str_mem_In; vm_compute; reflexivity);
    try (eexists; split; vm_compute; reflexivity).
Qed.

Lemma In_row_A_cases (P : pystr -> Prop) :
  P (py "A1") -> P (py "A2") ->
  (forall c, In c (skipn 2 row_A) -> P c) ->
  forall c, In c row_A -> P c.
Proof.
  intros H1 H2 H c [<- | [<- | Hc]]; auto.
Qed.

Lemma naked_twins_removes_pair_values_witness :
  exists after,
    Board.naked_twins false pair_board = Ok after /\
    forall c v, In c row_A -> c <> py "A1" -> c <> py "A2" ->
      getitem pair_board c = Ok v -> ~ incl v (py "12") ->
      exists v', getitem after c = Ok v' /\
                 forall x, In x (py "12") -> ~ In x v'.
Proof.
  apply (naked_twins_removes_pair_values
           false pair_board [] (py "A1") [py "A2"] pair_board row_A
           (py "A2") (py "12")).
  - vm_compute. reflexivity.
  - vm_compute. reflexivity.
  - reflexivity.
  - vm_compute. auto.
  - vm_compute. auto.
  - vm_compute. auto.
  - discriminate.
  - vm_compute. reflexivity.
  - vm_compute. reflexivity.
  - apply (In_row_A_cases
             (fun c => getitem pair_board c = Ok (py "12") ->
                       c = py "A1" \/ c = py "A2")); auto.
    intros c Hc. vm_compute in Hc.
    repeat (destruct Hc as [<- | Hc]; [vm_compute; discriminate|]).
    destruct Hc.
Defined.

Lemma grid_values_format_witness :
  exists board_dict,
    Board.grid_values easy_grid = Ok board_dict /\
    keys board_dict = Board.boxes /\
    forall i, i < Board.num_boxes ->
      getitem board_dict (nth i Board.boxes [])
      = Ok (if Ascii.eqb (nth i easy_grid " "%char) "."%char
            then Board._values
            else [nth i easy_grid " "%char]).
Proof.
  apply (proj2 (grid_values_format easy_grid)). reflexivity.
Defined.

Lemma decode_encode_roundtrip_witness :
  exists board_dict,
    Board.grid_values solved_grid = Ok board_dict /\
    (forall i, i < Board.num_boxes ->
       getitem board_dict (nth i Board.boxes [])
       = Ok [nth i solved_grid " "%char]) /\
    Board.board_to_str board_dict
    = Ok (join (py ",") (map (fun c => [c]) solved_grid)).
Proof.
  apply (decode_encode_roundtrip solved_grid).
  - reflexivity.
  - intros H. apply chr_mem_In in H. vm_compute in H. discriminate.
Defined.

Lemma validate_units_are_permutations_witness :
  exists valid,
    Board.validate false solved_board = Ok valid /\
    (valid = true <->
     forall unit, In unit (Board.all_units false) ->
       forall c, In c (map (cell_char solved_board) unit)
                 <-> In c Board._values) /\
    (valid = true <->
     forall unit, In unit (Board.all_units false) ->
       Permutation (map (cell_char solved_board) unit) Board._values).
Proof.
  apply (validate_units_are_permutations false solved_board).
  vm_compute. reflexivity.
Defined.

Lemma search_returns_validated_solution_witness :
  Board.grid_values easy_grid = Ok easy_board /\
  Board.search false 20 easy_board = Ok (Some solved_board) /\
  Board.num_solved_boxes solved_board = Board.num_boxes /\
  Board.validate false solved_board = Ok true /\
  forall box, In box Board.boxes ->
    exists c, getitem solved_board box = Ok [c] /\ In c Board._values.
Proof.
  assert (H : Board.search false 20 easy_board = Ok (Some solved_board))
    by (vm_compute; reflexivity).
  split; [vm_compute; reflexivity|]. split; [exact H|].
  exact (search_returns_validated_solution false 20 easy_board solved_board H).
Defined.

Lemma eliminate_monotone_witness :
  exists after,
    Board.eliminate false easy_board = Ok after /\
    keys after = keys easy_board /\
    (forall cell v, getitem easy_board cell = Ok v ->
       exists v', getitem after cell = Ok v' /\
                  incl v' v /\ length v' <= length v) /\
    (after = easy_board ->
     exists again, Board.eliminate false after = Ok again /\ again = after).
Proof.
  apply (eliminate_monotone false easy_board). vm_compute. reflexivity.
Defined.

Lemma naked_reductions_empty_no_cell_witness :
  (exists after,
     Board.naked_twins true pair_board = Ok after /\ nonempty_cells after) /\
  (exists after,
     Board.naked_multi true pair_board 2 = Ok after /\ nonempty_cells after).
Proof.
  apply (naked_reductions_empty_no_cell true pair_board 2).
  - vm_compute. reflexivity.
  - apply nonempty_cells_check. vm_compute. reflexivity.
Defined.

(** * Further properties of the topology *)

Lemma getitem_missing {V} (d : dict V) k :
  ~ In k (keys d) -> getitem d k = Raise KeyError.
Proof.
  induction d as [|[k' v'] d IH]; simpl; [reflexivity|].
  intros H. destruct (str_eqb k k') eqn:E.
  - apply str_eqb_eq in E. subst. tauto.
  - apply IH. tauto.
Qed.

(** X1: [cross] pairs every character of the first string with every
    character of the second: the result has as many keys as the product of
    the lengths, its keys are the two-character strings with one character of
    each, and they are distinct when the characters of each string are. *)
Theorem cross_spec (x_axis y_axis : pystr) :
  length (Board.cross x_axis y_axis) = length x_axis * length y_axis /\
  (forall k, In k (Board.cross x_axis y_axis) <->
             exists x y, k = [x; y] /\ In x x_axis /\ In y y_axis) /\
  (NoDup x_axis -> NoDup y_axis -> NoDup (Board.cross x_axis y_axis)).
Proof.
  unfold Board.cross. split; [|split].
  - induction x_axis as [|x xs IH]; simpl; [reflexivity|].
    now rewrite length_app, length_map, IH.
  - intros k. rewrite in_flat_map. split.
    + intros (x & Hx & Hk). apply in_map_iff in Hk.
      destruct Hk as (y & <- & Hy). eauto.
    + intros (x & y & -> & Hx & Hy). exists x. split; [assumption|].
      apply in_map_iff. eauto.
  - intros Hx Hy. induction Hx as [|x xs Hnot Hx IH]; simpl; [constructor|].
    apply NoDup_app.
    + clear -Hy. induction Hy as [|y ys Hnot Hy IH]; simpl; constructor.
      * intros Hin. apply in_map_iff in Hin.
        destruct Hin as (y' & [= ->] & Hin). contradiction.
      * exact IH.
    + exact IH.
    + intros k Hk Hk'. apply in_map_iff in Hk. destruct Hk as (y & <- & _).
      apply in_flat_map in Hk'. destruct Hk' as (x' & Hx' & Hk').
      apply in_map_iff in Hk'. destruct Hk' as (y' & [= -> _] & _).
      contradiction.
Qed.

(** X2: for a box of the board [units] returns the units that hold the box,
    in the order of [all_units]: its row, its column and its square, and in
    diagonal mode the diagonals through it.  For any other key it raises
    [KeyError]. *)
Theorem units_spec dm box :
  (In box Board.boxes ->
   exists us,
     Board.units dm box = Ok us /\
     us = filter (fun unit => str_mem box unit) (Board.all_units dm) /\
     (forall u, In u us <-> In u (Board.all_units dm) /\ In box u) /\
     length us = 3 + (if dm then diagonals_through box else 0)) /\
  (~ In box Board.boxes -> Board.units dm box = Raise KeyError).
Proof.
  split.
  - intros H. rewrite (units_of_box dm box H). eexists.
    split; [reflexivity|]. split; [reflexivity|]. split.
    + intros u. rewrite filter_In, str_mem_In. tauto.
    + assert (E : forallb
                    (fun box =>
                       length (filter (fun unit => str_mem box unit)
                                      (Board.all_units dm))
                       =? 3 + (if dm then diagonals_through box else 0))
                    Board.boxes = true)
        by (destruct dm; vm_compute; reflexivity).
      rewrite forallb_forall in E. apply Nat.eqb_eq. now apply E.
  - apply units_unknown_box.
Qed.

Lemma peers_members dm box :
  (In box Board.boxes ->
   exists ps,
     Board.peers dm box = Ok ps /\
     (forall p, In p ps <->
                p <> box /\
                exists u, In u (Board.all_units dm) /\ In box u /\ In p u) /\
     (forall p, In p ps ->
                exists qs, Board.peers dm p = Ok qs /\ In box qs)) /\
  (~ In box Board.boxes -> Board.peers dm box = Raise KeyError).
Proof.
  split.
  - intros H.
    assert (E : forallb
                  (fun box =>
                     match Board.peers dm box with
                     | Ok ps =>
                         forallb
                           (fun p =>
                              Bool.eqb (str_mem p ps)
                                (negb (str_eqb p box) &&
                                 existsb (fun u => str_mem box u && str_mem p u)
                                         (Board.all_units dm)))
                           Board.boxes
                         && forallb
                              (fun p =>
                                 match Board.peers dm p with
                                 | Ok qs => str_mem box qs
                                 | _ => false
                                 end) ps
                     | _ => false
                     end) Board.boxes = true)
      by (destruct dm; vm_compute; reflexivity).
    rewrite forallb_forall in E. specialize (E box H).
    destruct (peers_in_boxes dm box H) as (ps & Hps & Hincl & _).
    rewrite Hps in E. apply andb_true_iff in E. destruct E as [E1 E2].
    rewrite forallb_forall in E1, E2.
    exists ps. split; [exact Hps|]. split.
    + intros p. split.
      * intros Hp. specialize (E1 p (Hincl p Hp)).
        apply Bool.eqb_prop in E1. apply str_mem_In in Hp.
        rewrite Hp in E1. symmetry in E1.
        apply andb_true_iff in E1. destruct E1 as [Hne Hex].
        apply negb_true_iff, str_eqb_neq in Hne. split; [assumption|].
        apply existsb_exists in Hex. destruct Hex as (u & Hu & Hbp).
        apply andb_true_iff in Hbp. rewrite !str_mem_In in Hbp.
        exists u. tauto.
      * intros (Hne & u & Hu & Hb & Hp).
        assert (Hpb : In p Board.boxes)
          by (destruct (all_units_ok dm u Hu) as (_ & Hi & _); auto).
        specialize (E1 p Hpb). apply Bool.eqb_prop in E1.
        apply str_mem_In. rewrite E1. apply andb_true_iff. split.
        -- now apply negb_true_iff, str_eqb_neq.
        -- apply existsb_exists. exists u. split; [assumption|].
           apply andb_true_iff. now rewrite !str_mem_In.
    + intros p Hp. specialize (E2 p Hp).
      destruct (Board.peers dm p) as [qs| |]; try discriminate.
      exists qs. split; [reflexivity | now apply str_mem_In].
  - intros H. unfold Board.peers.
    assert (K : exists tbl, Board._peers dm = Ok tbl /\ keys tbl = Board.boxes)
      by (destruct dm; eexists; split; vm_compute; reflexivity).
    destruct K as (tbl & -> & K). cbn [bind].
    apply getitem_missing. now rewrite K.
Qed.

(** X3: the peers of a box of the board are the other boxes that share a
    unit with it, so being a peer is symmetric; for a key that is no box
    [peers] raises [KeyError]. *)
Theorem peers_spec dm box :
  (In box Board.boxes ->
   exists ps,
     Board.peers dm box = Ok ps /\
     (forall p, In p ps <->
                p <> box /\
                exists u, In u (Board.all_units dm) /\ In box u /\ In p u) /\
     (forall p, In p ps ->
                exists qs, Board.peers dm p = Ok qs /\ In box qs)) /\
  (~ In box Board.boxes -> Board.peers dm box = Raise KeyError).
Proof. exact (peers_members dm box). Qed.

(** * Further properties of the codec *)

Lemma getitem_entry {V} (d : dict V) k v : getitem d k = Ok v -> In (k, v) d.
Proof.
  induction d as [|[k' v'] d IH]; simpl; [discriminate|].
  destruct (str_eqb k k') eqn:E.
  - apply str_eqb_eq in E. subst. intros [= ->]. now left.
  - intros H. right. auto.
Qed.

(** X4: decoding any string of 81 characters and encoding the result gives
    the cells in box order joined by commas, an unknown cell written as
    [123456789] and a given one as its character. *)
Theorem decode_encode_with_placeholders (board_string : pystr) :
  length board_string = Board.num_boxes ->
  exists board_dict,
    Board.grid_values board_string = Ok board_dict /\
    Board.board_to_str board_dict
    = Ok (join (py ",")
               (map (fun c => if Ascii.eqb c "."%char
                              then py "123456789" else [c])
                    board_string)).
Proof.
  intros Hlen. eexists. split; [now apply grid_values_closed_form|].
  rewrite board_to_str_combine by now rewrite length_map.
  reflexivity.
Qed.

Lemma decode_encode_with_placeholders_witness :
  exists board_dict,
    Board.grid_values easy_grid = Ok board_dict /\
    Board.board_to_str board_dict
    = Ok (join (py ",")
               (map (fun c => if Ascii.eqb c "."%char
                              then py "123456789" else [c])
                    easy_grid)).
Proof.
  apply (decode_encode_with_placeholders easy_grid). reflexivity.
Defined.

Lemma board_to_str_loop_missing (board_dict : BoardState) :
  forall ks acc,
    ~ incl ks (keys board_dict) ->
    for_each ks
      (fun string key =>
         v <- getitem board_dict key ;; Ok (string ++ v ++ py ","))
      acc
    = Raise KeyError.
Proof.
  induction ks as [|k ks IH]; intros acc H.
  - exfalso. apply H. intros x [].
  - cbn [for_each]. destruct (str_mem k (keys board_dict)) eqn:E.
    + apply str_mem_In in E.
      destruct (proj2 (getitem_In_keys board_dict k) E) as (v & ->).
      cbn [bind]. apply IH. intros Hi. apply H.
      intros x [<- | Hx]; auto.
    + apply str_mem_not_In in E. now rewrite (getitem_missing _ _ E).
Qed.

(** X5: [board_to_str] writes the entries of the 81 boxes in box order,
    joined by commas, whatever they hold and whatever else the dictionary
    holds; when a box is missing it raises [KeyError]. *)
Theorem board_to_str_spec (board_dict : BoardState) :
  (incl Board.boxes (keys board_dict) ->
   Board.board_to_str board_dict
   = Ok (join (py ",") (map (value board_dict) Board.boxes))) /\
  (~ incl Board.boxes (keys board_dict) ->
   Board.board_to_str board_dict = Raise KeyError).
Proof.
  unfold Board.board_to_str. split; intros H.
  - rewrite (board_to_str_loop board_dict (value board_dict)).
    + cbn [bind app]. f_equal.
      rewrite flat_map_concat_map.
      rewrite <- (map_map (value board_dict) (fun v => v ++ py ",")).
      rewrite <- flat_map_concat_map.
      apply removelast_flat_map_join.
    + intros k Hk. unfold value.
      destruct (proj2 (getitem_In_keys board_dict k) (H k Hk)) as (v & ->).
      reflexivity.
  - now rewrite board_to_str_loop_missing.
Qed.

Lemma num_solved_boxes_combine : forall (ks vs : list pystr),
  length ks = length vs ->
  Board.num_solved_boxes (combine ks vs)
  = length (filter (fun v => length v =? 1) vs).
Proof.
  induction ks as [|k ks IH]; intros [|v vs]; simpl; try discriminate;
    [reflexivity|].
  intros [= H]. rewrite num_solved_boxes_cons, (IH vs H).
  destruct (length v =? 1); reflexivity.
Qed.

(** X6: the state decoded from a string of 81 characters has the 81 boxes
    as its keys, no empty cell, and as many solved boxes as the string has
    characters other than ['.']. *)
Theorem grid_values_well_formed (board_string : pystr) :
  length board_string = Board.num_boxes ->
  exists board_dict,
    Board.grid_values board_string = Ok board_dict /\
    board_ok board_dict = true /\
    nonempty_cells board_dict /\
    Board.num_solved_boxes board_dict
    = length (filter (fun c => negb (Ascii.eqb c "."%char)) board_string).
Proof.
  intros Hlen. eexists. split; [now apply grid_values_closed_form|].
  assert (Hk : keys (combine Board.boxes (map cell_of_char board_string))
               = Board.boxes)
    by (apply keys_combine; now rewrite length_map, boxes_length).
  split; [|split].
  - unfold board_ok. rewrite Hk. vm_compute. reflexivity.
  - intros k v Hv. apply getitem_entry, in_combine_r, in_map_iff in Hv.
    destruct Hv as (c & <- & _). unfold cell_of_char.
    destruct (Ascii.eqb c "."); discriminate.
  - rewrite num_solved_boxes_combine
      by now rewrite length_map, boxes_length.
    clear. induction board_string as [|c s IH]; simpl; [reflexivity|].
    unfold cell_of_char at 1.
    destruct (Ascii.eqb c "."); simpl; now rewrite IH.
Qed.

Lemma grid_values_well_formed_witness :
  exists board_dict,
    Board.grid_values easy_grid = Ok board_dict /\
    board_ok board_dict = true /\
    nonempty_cells board_dict /\
    Board.num_solved_boxes board_dict
    = length (filter (fun c => negb (Ascii.eqb c "."%char)) easy_grid).
Proof.
  apply (grid_values_well_formed easy_grid). reflexivity.
Defined.

(** * Further properties of propagation *)

Section Pointwise.

Variable R : pystr -> pystr -> Prop.

(** Two dictionaries with the same distinct keys whose entries are related
    key by key are related entry by entry. *)
Lemma pointwise_entries : forall (a b : BoardState),
  NoDup (keys a) -> keys b = keys a ->
  (forall k v, getitem a k = Ok v ->
     exists v', getitem b k = Ok v' /\ R v v') ->
  Forall2 (fun x y => fst x = fst y /\ R (snd x) (snd y)) a b.
Proof.
  induction a as [|[k va] a IH]; intros [|[k' vb] b] Hnd K H;
    try discriminate; [constructor|].
  injection K as -> Kt. inversion Hnd as [|? ? Hnot Hnd']; subst.
  constructor.
  - split; [reflexivity|]. destruct (H k va) as (v' & Hv' & Hr).
    + simpl. now rewrite str_eqb_refl.
    + simpl in Hv'. rewrite str_eqb_refl in Hv'. simpl. congruence.
  - apply IH; [assumption | assumption|].
    intros k0 v0 H0.
    assert (Hne : str_eqb k0 k = false).
    { apply str_eqb_neq. intros ->. apply Hnot.
      apply getitem_In_keys. eauto. }
    destruct (H k0 v0) as (v' & Hv' & Hr).
    + simpl. now rewrite Hne.
    + simpl in Hv'. rewrite Hne in Hv'. eauto.
Qed.

(** When the relation keeps solved entries solved, the number of solved
    boxes does not go down. *)
Lemma pointwise_solved (a b : BoardState) :
  (forall v v', R v v' -> length v = 1 -> length v' = 1) ->
  Forall2 (fun x y => fst x = fst y /\ R (snd x) (snd y)) a b ->
  Board.num_solved_boxes a <= Board.num_solved_boxes b.
Proof.
  intros HR H. induction H as [|[k va] [k' vb] a b [_ Hr] _ IH];
    [apply Nat.le_refl|].
  rewrite !num_solved_boxes_cons. simpl in Hr.
  destruct (length va =? 1) eqn:E; [|lia].
  apply Nat.eqb_eq in E. rewrite (HR va vb Hr E). simpl. lia.
Qed.

End Pointwise.

Section OnlyChoice.

Lemma chosen_refl v : chosen v v.
Proof. now left. Qed.

Lemma chosen_next v v' d :
  chosen v v' -> In d v' -> In d Board._values -> chosen v [d].
Proof.
  intros [-> | (Hlen & d' & -> & Hd' & Hv)] Hd Hval.
  - destruct v as [|c [|c' v]].
    + destruct Hd.
    + destruct Hd as [-> | []]. now left.
    + right. split; [simpl; lia|]. eauto.
  - destruct Hd as [<- | []]. right. eauto.
Qed.

Lemma chosen_shrinks v v' : chosen v v' -> shrinks v' v.
Proof.
  intros [-> | (Hlen & d & -> & Hd & _)]; [apply shrinks_refl|].
  split; [intros c [<- | []]; assumption | simpl; lia].
Qed.

Lemma chosen_short v v' : chosen v v' -> length v <= 1 -> v' = v.
Proof. intros [-> | (Hlen & _)] H; [reflexivity | lia]. Qed.

Lemma digit_of_number number :
  In number (seq 1 9) -> In (ascii_of_nat (48 + number)) Board._values.
Proof.
  intros H. simpl in H.
  repeat (destruct H as [<- | H]; [vm_compute; tauto|]). destruct H.
Qed.

(** The loop over the digits of [only_choice] for one unit, cell by cell. *)
Lemma only_choice_unit_chosen unit a :
  (forall b, In b unit -> In b (keys a)) ->
  exists a',
    for_each (seq 1 9)
      (fun board_dict number =>
         possible_boxes <-
           filter_r (fun box =>
                       v <- getitem board_dict box ;;
                       Ok (contains v (str_of_digit number)))
                    unit ;;
         match possible_boxes with
         | [box] => Ok (setitem board_dict box (str_of_digit number))
         | _ => Ok board_dict
         end)
      a = Ok a' /\
    keys a' = keys a /\
    forall k v, getitem a k = Ok v ->
      exists v', getitem a' k = Ok v' /\ chosen v v'.
Proof.
  intros Hin.
  apply (for_each_inv
           (fun a' => keys a' = keys a /\
                      forall k v, getitem a k = Ok v ->
                        exists v', getitem a' k = Ok v' /\ chosen v v')).
  { split; [reflexivity|]. intros k v Hk. exists v.
    split; [assumption | apply chosen_refl]. }
  intros b number Hnum [Kb Hb].
  assert (Hinb : forall x, In x unit -> In x (keys b))
    by (rewrite Kb; auto).
  rewrite (filter_r_ok _
             (fun box => contains (value b box) (str_of_digit number))).
  2:{ intros x Hx. unfold value.
      destruct (proj2 (getitem_In_keys b x) (Hinb x Hx)) as (v & ->).
      reflexivity. }
  cbn [bind].
  destruct (filter _ unit) as [|box [|? ?]] eqn:Ef;
    try (exists b; split; [reflexivity | split; assumption]).
  assert (Hbox : In box (filter
                           (fun box => contains (value b box)
                                                (str_of_digit number)) unit))
    by (rewrite Ef; now left).
  apply filter_In in Hbox. destruct Hbox as [Hu Hc].
  destruct (proj2 (getitem_In_keys b box) (Hinb box Hu)) as (vb & Hvb).
  unfold value in Hc. rewrite Hvb in Hc.
  unfold str_of_digit in *. rewrite contains_single in Hc.
  apply chr_mem_In in Hc.
  eexists. split; [reflexivity|]. split.
  - rewrite keys_setitem; [assumption|]. apply getitem_In_keys. eauto.
  - intros k v Hk. destruct (Hb k v Hk) as (v' & Hv' & Hch).
    destruct (str_eqb box k) eqn:E.
    + apply str_eqb_eq in E. subst k. rewrite getitem_setitem_same.
      eexists. split; [reflexivity|].
      assert (v' = vb) by congruence. subst v'.
      eapply chosen_next; eauto. now apply digit_of_number.
    + apply str_eqb_neq in E. rewrite getitem_setitem_other by assumption.
      eauto.
Qed.

End OnlyChoice.

(** X7: on a state over the 81 boxes [only_choice] returns a state with the
    same keys in which every cell is as it was or, where it had several
    candidates, holds one of its digits alone.  So no cell is emptied, no
    solved cell is changed, and the number of solved boxes does not go
    down. *)
Theorem only_choice_spec dm board_dict :
  board_ok board_dict = true ->
  exists after,
    Board.only_choice dm board_dict = Ok after /\
    keys after = keys board_dict /\
    (forall k v, getitem board_dict k = Ok v ->
       exists v', getitem after k = Ok v' /\ chosen v v') /\
    Board.num_solved_boxes board_dict <= Board.num_solved_boxes after.
Proof.
  intros Hok. unfold Board.only_choice.
  destruct (for_each_inv
              (fun a' => keys a' = keys board_dict /\
                         forall k v, getitem board_dict k = Ok v ->
                           exists v', getitem a' k = Ok v' /\ chosen v v')
              (fun board_dict unit =>
                 for_each (seq 1 9)
                   (fun board_dict number =>
                      possible_boxes <-
                        filter_r (fun box =>
                                    v <- getitem board_dict box ;;
                                    Ok (contains v (str_of_digit number)))
                                 unit ;;
                      match possible_boxes with
                      | [box] =>
                          Ok (setitem board_dict box (str_of_digit number))
                      | _ => Ok board_dict
                      end)
                   board_dict)
              (Board.all_units dm) board_dict)
    as (after & E & K & H).
  - split; [reflexivity|]. intros k v Hk. exists v.
    split; [assumption | apply chosen_refl].
  - intros b unit Hunit [Kb Hb].
    destruct (all_units_ok dm unit Hunit) as (_ & Hincl & _).
    destruct (only_choice_unit_chosen unit b) as (b' & -> & Kb' & Hb').
    + intros x Hx. rewrite Kb. apply (board_ok_keys board_dict); auto.
    + exists b'. split; [reflexivity|]. split; [congruence|].
      intros k v Hk. destruct (Hb k v Hk) as (v1 & Hv1 & C1).
      destruct (Hb' k v1 Hv1) as (v2 & Hv2 & C2).
      exists v2. split; [assumption|].
      destruct C2 as [-> | (_ & d & -> & Hd & Hval)]; [assumption|].
      eapply chosen_next; eauto.
  - exists after. split; [exact E|]. split; [exact K|]. split; [exact H|].
    apply (pointwise_solved chosen).
    + intros v v' Hch Hlen. rewrite (chosen_short v v' Hch); lia.
    + apply pointwise_entries; auto. now apply board_ok_NoDup.
Qed.

Lemma only_choice_spec_witness :
  exists after,
    Board.only_choice false easy_board = Ok after /\
    keys after = keys easy_board /\
    (forall k v, getitem easy_board k = Ok v ->
       exists v', getitem after k = Ok v' /\ chosen v v') /\
    Board.num_solved_boxes easy_board <= Board.num_solved_boxes after.
Proof.
  apply (only_choice_spec false easy_board). vm_compute. reflexivity.
Defined.

Section EliminateTurns.

Variable peers_of : pystr -> result (list pystr).

(** [peers_of] answers for every box with distinct boxes. *)
Hypothesis peers_of_ok :
  forall box, In box Board.boxes ->
    exists ps, peers_of box = Ok ps /\ incl ps Board.boxes /\ NoDup ps.

Lemma eliminate_is_eliminate_with dm board_dict :
  Board.eliminate dm board_dict = eliminate_with (Board.peers dm) board_dict.
Proof. reflexivity. Qed.

(** One turn of the loop of [eliminate], cell by cell. *)
Lemma eliminate_turn_spec a box :
  board_ok a = true -> In box Board.boxes ->
  exists a' digit ps,
    eliminate_turn peers_of a box = Ok a' /\
    getitem a box = Ok digit /\ peers_of box = Ok ps /\
    narrows a a' /\
    forall k v, getitem a k = Ok v ->
      getitem a' k = Ok (if str_mem k ps then replace v digit else v).
Proof.
  intros Hok Hbox. unfold eliminate_turn.
  destruct (board_ok_getitem a box Hok Hbox) as (digit & Hd).
  destruct (peers_of_ok box Hbox) as (ps & Hps & Hincl & Hnd).
  rewrite Hd, Hps. cbn [bind].
  destruct (eliminate_peers_spec digit ps a Hnd) as (a' & E & K & G).
  { intros p Hp. apply (board_ok_keys a); auto. }
  exists a', digit, ps. repeat (split; [assumption || reflexivity|]).
  split; [|exact G].
  split; [exact K|]. intros k v Hk. rewrite (G k v Hk).
  eexists. split; [reflexivity|].
  destruct (str_mem k ps); [apply replace_shrinks | apply shrinks_refl].
Qed.

Lemma eliminate_turns_narrow : forall bs a,
  board_ok a = true -> incl bs Board.boxes ->
  exists a', for_each bs (eliminate_turn peers_of) a = Ok a' /\ narrows a a'.
Proof.
  intros bs a Hok Hbs.
  apply (for_each_inv (fun a' => narrows a a')); [apply narrows_refl|].
  intros b box Hbox Hb.
  destruct (eliminate_turn_spec b box) as (b' & _ & _ & E & _ & _ & Hn & _).
  - eapply narrows_board_ok; eauto.
  - auto.
  - exists b'. split; [exact E|]. eapply narrows_trans; eauto.
Qed.

End EliminateTurns.

Lemma shrinks_single v d : shrinks v [d] -> v = [] \/ v = [d].
Proof.
  intros [Hi Hl]. destruct v as [|c [|c' v]]; simpl in Hl; [now left| |lia].
  right. destruct (Hi c (or_introl eq_refl)) as [<- | []]. reflexivity.
Qed.

Lemma solved_key_listed (board_dict : BoardState) box d :
  getitem board_dict box = Ok [d] ->
  In box (Board.keys_where (fun v => length v =? 1) board_dict).
Proof.
  intros H. apply getitem_entry in H. unfold Board.keys_where.
  apply in_map_iff. exists (box, [d]). split; [reflexivity|].
  apply filter_In. split; [assumption | reflexivity].
Qed.

Lemma eliminate_solved_box dm board_dict box d :
  board_ok board_dict = true ->
  getitem board_dict box = Ok [d] ->
  exists after ps,
    Board.eliminate dm board_dict = Ok after /\
    Board.peers dm box = Ok ps /\
    (getitem after box = Ok [] \/
     (getitem after box = Ok [d] /\
      forall p v, In p ps -> getitem after p = Ok v -> ~ In d v)).
Proof.
  intros Hok Hd.
  assert (Hpeers : forall b, In b Board.boxes ->
            exists ps, Board.peers dm b = Ok ps /\ incl ps Board.boxes
                       /\ NoDup ps).
  { intros b Hb. destruct (peers_in_boxes dm b Hb) as (ps & H1 & H2 & H3 & _).
    eauto. }
  pose proof (keys_where_boxes (fun v => length v =? 1) board_dict Hok)
    as Hboxes.
  destruct (in_split _ _ (solved_key_listed board_dict box d Hd))
    as (pre & post & Hsplit).
  rewrite Hsplit in Hboxes.
  assert (Hbox : In box Board.boxes)
    by (apply Hboxes, in_or_app; right; now left).
  rewrite eliminate_is_eliminate_with. unfold eliminate_with.
  rewrite Hsplit, for_each_app.
  destruct (eliminate_turns_narrow (Board.peers dm) Hpeers pre board_dict Hok)
    as (a1 & E1 & N1).
  { intros k Hk. apply Hboxes, in_or_app. now left. }
  rewrite E1. cbn [bind for_each].
  assert (Hok1 : board_ok a1 = true) by (eapply narrows_board_ok; eauto).
  destruct (eliminate_turn_spec (Board.peers dm) Hpeers a1 box Hok1 Hbox)
    as (a2 & digit & ps & E2 & Hdigit & Hps & N2 & G2).
  rewrite E2. cbn [bind].
  assert (Hok2 : board_ok a2 = true) by (eapply narrows_board_ok; eauto).
  destruct (eliminate_turns_narrow (Board.peers dm) Hpeers post a2 Hok2)
    as (after & E3 & N3).
  { intros k Hk. apply Hboxes, in_or_app. right. now right. }
  exists after, ps. split; [exact E3|]. split; [exact Hps|].
  destruct (proj2 N1 box [d] Hd) as (v1 & Hv1 & S1).
  assert (v1 = digit) by congruence. subst v1.
  destruct (peers_in_boxes dm box Hbox) as (ps' & Hps' & _ & _ & Hnot).
  assert (ps' = ps) by congruence. subst ps'.
  pose proof (G2 box digit Hdigit) as Hbox2.
  apply str_mem_not_In in Hnot. rewrite Hnot in Hbox2.
  destruct (proj2 N3 box digit Hbox2) as (v3 & Hv3 & S3).
  destruct (shrinks_single digit d S1) as [-> | ->].
  - left. destruct S3 as [_ Hl]. destruct v3; [assumption | simpl in Hl; lia].
  - destruct (shrinks_single v3 d S3) as [-> | ->]; [now left | right].
    split; [assumption|].
    intros p v Hp Hv Hin.
    destruct (board_ok_getitem a1 p Hok1) as (vp & Hvp).
    { destruct (Hpeers box Hbox) as (ps' & Hps'' & Hincl & _).
      assert (ps' = ps) by congruence. subst ps'. auto. }
    pose proof (G2 p vp Hvp) as Hp2.
    apply str_mem_In in Hp. rewrite Hp in Hp2.
    destruct (proj2 N3 p _ Hp2) as (v' & Hv' & Hi & _).
    assert (v' = v) by congruence. subst v'.
    apply Hi, replace_single_In in Hin. tauto.
Qed.

(** X8: let a box hold the single value [d] when [eliminate] is called on a
    state over the 81 boxes.  In the state [eliminate] returns the box still
    holds [d] and [d] is a candidate of none of its peers, or else the box
    has been emptied (by a peer that was solved to [d] as well). *)
Theorem eliminate_clears_peers dm board_dict box d :
  board_ok board_dict = true ->
  getitem board_dict box = Ok [d] ->
  exists after ps,
    Board.eliminate dm board_dict = Ok after /\
    Board.peers dm box = Ok ps /\
    (getitem after box = Ok [] \/
     (getitem after box = Ok [d] /\
      forall p v, In p ps -> getitem after p = Ok v -> ~ In d v)).
Proof. exact (eliminate_solved_box dm board_dict box d). Qed.

Lemma eliminate_clears_peers_witness :
  exists after ps,
    Board.eliminate false easy_board = Ok after /\
    Board.peers false (py "A3") = Ok ps /\
    (getitem after (py "A3") = Ok [] \/
     (getitem after (py "A3") = Ok (py "3") /\
      forall p v, In p ps -> getitem after p = Ok v -> ~ In "3"%char v)).
Proof.
  apply (eliminate_clears_peers false easy_board (py "A3") "3"%char).
  - vm_compute. reflexivity.
  - vm_compute. reflexivity.
Defined.

Lemma for_each_agree {A S} (P : S -> Prop) (f g : S -> A -> result S) :
  forall xs acc,
    P acc ->
    (forall a x, In x xs -> P a ->
       f a x = g a x /\ forall a', g a x = Ok a' -> P a') ->
    for_each xs f acc = for_each xs g acc.
Proof.
  induction xs as [|x xs IH]; intros acc Hacc H; simpl; [reflexivity|].
  destruct (H acc x (or_introl eq_refl) Hacc) as [E Hnext]. rewrite E.
  destruct (g acc x) as [a'| |]; simpl; try reflexivity.
  apply IH; [auto|]. intros a y Hy. apply H. now right.
Qed.

(** X9: [peers(box)] is a set, which Python runs through in an order of its
    own.  On a state over the 81 boxes [eliminate] returns the same state
    whatever order the peers of each box are taken in. *)
Theorem eliminate_any_peer_order dm peers_of board_dict :
  board_ok board_dict = true ->
  (forall box, In box Board.boxes ->
     exists ps ps',
       Board.peers dm box = Ok ps /\ peers_of box = Ok ps' /\
       Permutation ps ps') ->
  eliminate_with peers_of board_dict = Board.eliminate dm board_dict.
Proof.
  intros Hok Hperm. rewrite eliminate_is_eliminate_with. unfold eliminate_with.
  apply (for_each_agree
           (fun a => narrows board_dict a)); [apply narrows_refl|].
  intros a box Hbox Ha.
  assert (Hoka : board_ok a = true) by (eapply narrows_board_ok; eauto).
  assert (Hb : In box Board.boxes).
  { exact (keys_where_boxes _ board_dict Hok box Hbox). }
  destruct (Hperm box Hb) as (ps & ps' & Hps & Hps' & HP).
  destruct (peers_in_boxes dm box Hb) as (qs & Hqs & Hincl & Hnd & _).
  assert (qs = ps) by congruence. subst qs.
  split.
  - unfold eliminate_turn. rewrite Hps, Hps'.
    destruct (getitem a box) as [digit| |]; cbn [bind]; try reflexivity.
    symmetry. apply eliminate_peers_any_order; auto.
    + now apply board_ok_NoDup.
    + intros p Hp. apply (board_ok_keys a); auto.
  - intros a' Ha'.
    destruct (eliminate_turn_spec (Board.peers dm)) with (a := a) (box := box)
      as (b & _ & _ & E & _ & _ & Hn & _); auto.
    { intros b Hb'. destruct (peers_in_boxes dm b Hb') as (x & ? & ? & ? & _).
      eauto. }
    assert (b = a') by congruence. subst b.
    eapply narrows_trans; eauto.
Qed.

Lemma eliminate_any_peer_order_witness :
  eliminate_with
    (fun box => ps <- Board.peers true box ;; Ok (rev ps)) easy_board
  = Board.eliminate true easy_board.
Proof.
  apply (eliminate_any_peer_order true).
  - vm_compute. reflexivity.
  - intros box Hbox.
    destruct (peers_in_boxes true box Hbox) as (ps & Hps & _).
    exists ps, (rev ps). rewrite Hps. cbn [bind].
    split; [reflexivity|]. split; [reflexivity | apply Permutation_rev].
Defined.

(** * Further properties of [reduce_puzzle] and [search] *)

Section Budget.

Variable dm : bool.

Lemma reduce_puzzle_more_fuel : forall fuel a r,
  Board.reduce_puzzle dm fuel a = Ok r ->
  forall fuel', fuel <= fuel' -> Board.reduce_puzzle dm fuel' a = Ok r.
Proof.
  induction fuel as [|fuel IH]; intros a r H fuel' Hle; [discriminate|].
  destruct fuel' as [|fuel']; [lia|].
  rewrite reduce_puzzle_unfold in *.
  destruct (propagate dm a) as [a'| |]; cbn [bind] in *; try discriminate.
  destruct (Board.num_solved_boxes a' =? 0); [assumption|].
  destruct (Board.num_solved_boxes a =? Board.num_solved_boxes a');
    [assumption|].
  apply (IH a' r H). lia.
Qed.

Lemma reduce_puzzle_some : forall fuel a b,
  board_ok a = true ->
  Board.reduce_puzzle dm fuel a = Ok (Some b) ->
  narrows a b /\ Board.num_solved_boxes b <> 0.
Proof.
  induction fuel as [|fuel IH]; intros a b Hok H; [discriminate|].
  rewrite reduce_puzzle_unfold in H.
  destruct (propagate_narrows dm a Hok) as (a' & E & Hn).
  rewrite E in H. cbn [bind] in H.
  destruct (Board.num_solved_boxes a' =? 0) eqn:E0; [discriminate|].
  apply Nat.eqb_neq in E0.
  destruct (Board.num_solved_boxes a =? Board.num_solved_boxes a').
  - injection H as <-. auto.
  - destruct (IH a' b (narrows_board_ok a a' Hn Hok) H) as [Hn' Hs].
    split; [eapply narrows_trans; eauto | assumption].
Qed.

Lemma try_choices_more recurse recurse' reduced box :
  (forall b r, recurse b = Ok r -> recurse' b = Ok r) ->
  forall choices r,
    Board.try_choices recurse reduced box choices = Ok r ->
    Board.try_choices recurse' reduced box choices = Ok r.
Proof.
  intros Hrec. induction choices as [|c cs IH]; simpl; intros r H;
    [assumption|].
  destruct (recurse (setitem reduced box [c])) as [x| |] eqn:E;
    cbn [bind] in H; try discriminate.
  rewrite (Hrec _ _ E). cbn [bind]. destruct x; auto.
Qed.

Lemma search_more_fuel : forall fuel a r,
  Board.search dm fuel a = Ok r ->
  forall fuel', fuel <= fuel' -> Board.search dm fuel' a = Ok r.
Proof.
  induction fuel as [|fuel IH]; intros a r H fuel' Hle; [discriminate|].
  destruct fuel' as [|fuel']; [lia|].
  rewrite search_unfold in *.
  destruct (Board.reduce_puzzle dm (S fuel) a) as [x| |] eqn:E;
    cbn [bind] in H; try discriminate.
  rewrite (reduce_puzzle_more_fuel _ _ _ E (S fuel')) by lia. cbn [bind].
  destruct x as [reduced|]; [|assumption].
  destruct (Board.num_solved_boxes reduced =? Board.num_boxes); [assumption|].
  destruct (Board.sorted_box_possibilities reduced) as [|box rest];
    [assumption|].
  destruct (getitem reduced box) as [choices| |]; cbn [bind] in *;
    try discriminate.
  apply (try_choices_more (Board.search dm fuel)); [|assumption].
  intros b r' Hb. apply (IH b r' Hb). lia.
Qed.

Lemma try_choices_narrows_valid recurse reduced box choices :
  board_ok reduced = true ->
  getitem reduced box = Ok choices ->
  (forall b r, board_ok b = true -> recurse b = Ok (Some r) ->
               narrows b r /\ Board.validate dm r = Ok true) ->
  forall cs r,
    incl cs choices ->
    Board.try_choices recurse reduced box cs = Ok (Some r) ->
    narrows reduced r /\ Board.validate dm r = Ok true.
Proof.
  intros Hok Hbox Hrec. induction cs as [|c cs IH]; simpl; intros r Hcs H;
    [discriminate|].
  assert (Hn : narrows reduced (setitem reduced box [c])).
  { apply narrows_setitem with (v := choices); [assumption|].
    assert (Hc : In c choices) by (apply Hcs; now left).
    split; [intros x [<- | []]; assumption|].
    destruct choices; [destruct Hc | simpl; lia]. }
  destruct (recurse (setitem reduced box [c])) as [[x|]| |] eqn:E;
    cbn [bind] in H; try discriminate.
  - injection H as <-.
    destruct (Hrec _ _ (narrows_board_ok _ _ Hn Hok) E) as [Hn' Hv].
    split; [eapply narrows_trans; eauto | assumption].
  - apply IH; [|assumption]. intros y Hy. apply Hcs. now right.
Qed.

Lemma search_narrows_valid : forall fuel a sol,
  board_ok a = true ->
  Board.search dm fuel a = Ok (Some sol) ->
  narrows a sol /\ Board.validate dm sol = Ok true.
Proof.
  induction fuel as [|fuel IH]; intros a sol Hok H; [discriminate|].
  rewrite search_unfold in H.
  destruct (Board.reduce_puzzle dm (S fuel) a) as [[reduced|]| |] eqn:E;
    cbn [bind] in H; try discriminate.
  destruct (reduce_puzzle_some _ _ _ Hok E) as [Hn _].
  assert (Hokr : board_ok reduced = true)
    by (eapply narrows_board_ok; eauto).
  destruct (Board.num_solved_boxes reduced =? Board.num_boxes).
  - destruct (Board.validate dm reduced) as [[|]| |] eqn:Ev;
      cbn [bind] in H; try discriminate.
    injection H as <-. auto.
  - destruct (Board.sorted_box_possibilities reduced) as [|box rest];
      [discriminate|].
    destruct (getitem reduced box) as [choices| |] eqn:Eb; cbn [bind] in H;
      try discriminate.
    destruct (try_choices_narrows_valid (Board.search dm fuel)
                reduced box choices Hokr Eb IH choices sol
                (incl_refl _) H) as [Hn' Hv].
    split; [eapply narrows_trans; eauto | assumption].
Qed.

End Budget.

(** X10: on a state over the 81 boxes [reduce_puzzle] returns, and returns
    the same, for every budget above the total length of the entries.  A
    state it returns has the keys of the input, every entry a part of what
    it was, and at least one solved box. *)
Theorem reduce_puzzle_total dm board_dict :
  board_ok board_dict = true ->
  exists r,
    (forall fuel, total_length board_dict < fuel ->
       Board.reduce_puzzle dm fuel board_dict = Ok r) /\
    (forall reduced, r = Some reduced ->
       narrows board_dict reduced /\ Board.num_solved_boxes reduced <> 0).
Proof.
  intros Hok.
  destruct (reduce_puzzle_terminates dm (S (total_length board_dict))
              board_dict Hok (Nat.lt_succ_diag_r _)) as (r & Hr & _).
  exists r. split.
  - intros fuel Hlt. apply (reduce_puzzle_more_fuel dm _ _ _ Hr). lia.
  - intros reduced ->. eapply reduce_puzzle_some; eauto.
Qed.

Lemma reduce_puzzle_total_witness :
  exists r,
    (forall fuel, total_length easy_board < fuel ->
       Board.reduce_puzzle false fuel easy_board = Ok r) /\
    (forall reduced, r = Some reduced ->
       narrows easy_board reduced /\ Board.num_solved_boxes reduced <> 0).
Proof.
  apply (reduce_puzzle_total false easy_board). vm_compute. reflexivity.
Defined.

(** X11: on a state over the 81 boxes [search] raises nothing and returns, a
    state or [None], and returns the same for every budget above the total
    length of the entries. *)
Theorem search_total dm board_dict :
  board_ok board_dict = true ->
  exists r,
    forall fuel, total_length board_dict < fuel ->
      Board.search dm fuel board_dict = Ok r.
Proof.
  intros Hok.
  destruct (search_terminates dm (S (total_length board_dict))
              board_dict Hok (Nat.lt_succ_diag_r _)) as (r & Hr).
  exists r. intros fuel Hlt. apply (search_more_fuel dm _ _ _ Hr). lia.
Qed.

Lemma search_total_witness :
  exists r,
    forall fuel, total_length pair_board < fuel ->
      Board.search true fuel pair_board = Ok r.
Proof.
  apply (search_total true pair_board). vm_compute. reflexivity.
Defined.

(** X12: a state [search] returns for a state over the 81 boxes fits the
    puzzle: it has the same keys, and every box holds, alone, one of the
    candidates it had in the input, so a given value is kept. *)
Theorem search_solution_fits_puzzle dm fuel board_dict solution :
  board_ok board_dict = true ->
  Board.search dm fuel board_dict = Ok (Some solution) ->
  keys solution = keys board_dict /\
  forall box v, getitem board_dict box = Ok v ->
    exists c, getitem solution box = Ok [c] /\ In c v.
Proof.
  intros Hok H.
  destruct (search_narrows_valid dm fuel board_dict solution Hok H)
    as [[K Hn] Hv].
  split; [exact K|]. intros box v Hbox.
  destruct (Hn box v Hbox) as (v' & Hv' & Hi & _).
  assert (Hb : In box Board.boxes).
  { apply (board_ok_keys board_dict); [assumption|].
    apply getitem_In_keys. eauto. }
  destruct (validate_true_cells dm solution Hv box Hb) as (c & Hc & _).
  exists c. split; [assumption|].
  apply Hi. assert (v' = [c]) by congruence. subst v'. now left.
Qed.

Lemma search_solution_fits_puzzle_witness :
  keys solved_board = keys easy_board /\
  forall box v, getitem easy_board box = Ok v ->
    exists c, getitem solved_board box = Ok [c] /\ In c v.
Proof.
  apply (search_solution_fits_puzzle false 20 easy_board solved_board).
  - vm_compute. reflexivity.
  - vm_compute. reflexivity.
Defined.

(** * Further properties of validation and of the search helpers *)

Lemma validate_units_app xs ys board_dict :
  Board.validate_units (xs ++ ys) board_dict = Ok true ->
  Board.validate_units xs board_dict = Ok true.
Proof.
  induction xs as [|u us IH]; simpl; [reflexivity|].
  destruct (map_r (getitem board_dict) u) as [vals| |]; cbn [bind];
    try discriminate.
  destruct (negb _); [discriminate | exact IH].
Qed.

(** X13: a state that passes [validate] in diagonal mode passes it without
    the diagonals: the units of diagonal mode are those of plain mode and
    two more. *)
Theorem validate_diagonal_implies_plain board_dict :
  Board.validate true board_dict = Ok true ->
  Board.validate false board_dict = Ok true.
Proof.
  unfold Board.validate.
  change (Board.all_units true)
    with (Board.all_units false ++ Board._diagonal_units).
  apply validate_units_app.
Qed.

Lemma validate_diagonal_implies_plain_witness :
  Board.validate true diagonal_solved_board = Ok true /\
  Board.validate false diagonal_solved_board = Ok true.
Proof.
  assert (H : Board.validate true diagonal_solved_board = Ok true)
    by (vm_compute; reflexivity).
  split; [exact H|].
  exact (validate_diagonal_implies_plain diagonal_solved_board H).
Defined.

Lemma fully_assigned_iff board_dict :
  fully_assigned board_dict = true <->
  forall box, In box Board.boxes -> exists c, getitem board_dict box = Ok [c].
Proof.
  unfold fully_assigned. rewrite forallb_forall. split; intros H box Hb.
  - specialize (H box Hb).
    destruct (getitem board_dict box) as [[|c [|? ?]]| |]; try discriminate.
    eauto.
  - destruct (H box Hb) as (c & ->). reflexivity.
Qed.

(** X14: on every state over the 81 boxes [validate] returns, and returns
    [True] exactly when every box holds a single character and the
    characters of every unit are a rearrangement of the nine values; a state
    with an open or an empty cell is never accepted. *)
Theorem validate_spec dm board_dict :
  board_ok board_dict = true ->
  exists valid,
    Board.validate dm board_dict = Ok valid /\
    (valid = true <->
     fully_assigned board_dict = true /\
     forall unit, In unit (Board.all_units dm) ->
       Permutation (map (cell_char board_dict) unit) Board._values).
Proof.
  intros Hok. destruct (validate_returns dm board_dict Hok) as (valid & Hv).
  exists valid. split; [exact Hv|].
  assert (Hunits : forall u, In u (Board.all_units dm) ->
                             incl u Board.boxes /\ length u = 9).
  { intros u Hu. destruct (all_units_ok dm u Hu) as (_ & H1 & H2). auto. }
  split.
  - intros ->.
    assert (Hfull : fully_assigned board_dict = true).
    { apply fully_assigned_iff. intros box Hb.
      destruct (validate_true_cells dm board_dict Hv box Hb) as (c & Hc & _).
      eauto. }
    split; [exact Hfull|].
    destruct (validate_units_assigned board_dict Hfull _ Hunits)
      as (valid' & Hv' & Hiff).
    unfold Board.validate in Hv. apply Hiff. congruence.
  - intros [Hfull Hperm].
    destruct (validate_units_assigned board_dict Hfull _ Hunits)
      as (valid' & Hv' & Hiff).
    unfold Board.validate in Hv.
    assert (valid' = valid) by congruence. subst valid'.
    now apply Hiff.
Qed.

Lemma validate_spec_witness :
  exists valid,
    Board.validate true pair_board = Ok valid /\
    (valid = true <->
     fully_assigned pair_board = true /\
     forall unit, In unit (Board.all_units true) ->
       Permutation (map (cell_char pair_board) unit) Board._values).
Proof.
  apply (validate_spec true pair_board). vm_compute. reflexivity.
Defined.

Lemma filter_length_all {A} (p : A -> bool) (xs : list A) :
  length (filter p xs) = length xs <-> forall x, In x xs -> p x = true.
Proof.
  induction xs as [|x xs IH]; simpl; [tauto|].
  pose proof (filter_length_le p xs) as Hle.
  destruct (p x) eqn:E; simpl.
  - split.
    + intros [= H] y [<- | Hy]; [assumption | now apply IH].
    + intros H. f_equal. apply IH. auto.
  - split; [lia|]. intros H. rewrite (H x (or_introl eq_refl)) in E.
    discriminate.
Qed.

Lemma board_ok_length board_dict :
  board_ok board_dict = true -> length board_dict = Board.num_boxes.
Proof.
  intros Hok. rewrite <- boxes_length.
  rewrite <- (length_map fst board_dict). apply Permutation_length.
  apply NoDup_Permutation.
  - now apply board_ok_NoDup.
  - apply boxes_NoDup.
  - intros k. now apply board_ok_keys.
Qed.

Lemma solved_count_all board_dict :
  board_ok board_dict = true ->
  Board.num_solved_boxes board_dict <= Board.num_boxes /\
  (Board.num_solved_boxes board_dict = Board.num_boxes <->
   forall box, In box Board.boxes ->
     exists c, getitem board_dict box = Ok [c]).
Proof.
  intros Hok. pose proof (board_ok_length board_dict Hok) as Hlen.
  unfold Board.num_solved_boxes, Board.keys_where. rewrite length_map.
  split; [rewrite <- Hlen; apply filter_length_le|].
  rewrite <- Hlen, filter_length_all. split.
  - intros H box Hb.
    destruct (board_ok_getitem board_dict box Hok Hb) as (v & Hv).
    specialize (H (box, v) (getitem_entry _ _ _ Hv)). simpl in H.
    apply Nat.eqb_eq in H. destruct v as [|c [|? ?]]; try discriminate.
    eauto.
  - intros H [k v] Hin. simpl.
    assert (Hk : In k Board.boxes).
    { apply (board_ok_keys board_dict k Hok). unfold keys.
      apply in_map_iff. exists (k, v). auto. }
    destruct (H k Hk) as (c & Hc).
    rewrite (getitem_of_entry board_dict k v (board_ok_NoDup _ Hok) Hin)
      in Hc.
    injection Hc as ->. reflexivity.
Qed.

(** X15: on a state over the 81 boxes the test of [search] for a finished
    grid, [num_solved_boxes] being the number of boxes, holds exactly when
    every box holds a single character; otherwise the count is smaller. *)
Theorem num_solved_boxes_all board_dict :
  board_ok board_dict = true ->
  Board.num_solved_boxes board_dict <= Board.num_boxes /\
  (Board.num_solved_boxes board_dict = Board.num_boxes <->
   forall box, In box Board.boxes ->
     exists c, getitem board_dict box = Ok [c]).
Proof. exact (solved_count_all board_dict). Qed.

Lemma num_solved_boxes_all_witness :
  Board.num_solved_boxes solved_board <= Board.num_boxes /\
  (Board.num_solved_boxes solved_board = Board.num_boxes <->
   forall box, In box Board.boxes ->
     exists c, getitem solved_board box = Ok [c]).
Proof.
  apply (num_solved_boxes_all solved_board). vm_compute. reflexivity.
Defined.

Section Sorting.

Context {A : Type} (key : A -> nat).

Lemma insert_by_perm x xs : Permutation (insert_by key x xs) (x :: xs).
Proof.
  induction xs as [|y ys IH]; simpl; [reflexivity|].
  destruct (key x <=? key y); [reflexivity|].
  rewrite IH. apply perm_swap.
Qed.

Lemma sorted_perm xs : Permutation (sorted key xs) xs.
Proof.
  induction xs as [|x xs IH]; simpl; [reflexivity|].
  rewrite insert_by_perm. now constructor.
Qed.

Lemma insert_by_ordered x xs :
  ForallOrdPairs (fun a b => key a <= key b) xs ->
  ForallOrdPairs (fun a b => key a <= key b) (insert_by key x xs).
Proof.
  induction 1 as [|y ys Hy Hys IH]; simpl.
  - constructor; constructor.
  - destruct (key x <=? key y) eqn:E.
    + apply Nat.leb_le in E. constructor; [|now constructor].
      constructor; [assumption|].
      eapply Forall_impl; [|exact Hy]. simpl. intros; lia.
    + apply Nat.leb_gt in E. constructor; [|assumption].
      apply (Permutation_Forall (Permutation_sym (insert_by_perm x ys))).
      constructor; [lia | assumption].
Qed.

Lemma sorted_ordered xs :
  ForallOrdPairs (fun a b => key a <= key b) (sorted key xs).
Proof.
  induction xs as [|x xs IH]; simpl; [constructor|].
  now apply insert_by_ordered.
Qed.

(** The sort is stable: the elements of one key keep their order. *)
Lemma insert_by_stable n x xs :
  filter (fun a => key a =? n) (insert_by key x xs)
  = filter (fun a => key a =? n) (x :: xs).
Proof.
  induction xs as [|y ys IH]; [reflexivity|].
  cbn [insert_by]. destruct (key x <=? key y) eqn:E; [reflexivity|].
  apply Nat.leb_gt in E. cbn [filter] in *. rewrite IH.
  destruct (key x =? n) eqn:Ex, (key y =? n) eqn:Ey; try reflexivity.
  apply Nat.eqb_eq in Ex, Ey. lia.
Qed.

Lemma sorted_stable n xs :
  filter (fun a => key a =? n) (sorted key xs)
  = filter (fun a => key a =? n) xs.
Proof.
  induction xs as [|x xs IH]; [reflexivity|].
  cbn [sorted fold_right]. fold (sorted key xs).
  rewrite insert_by_stable. cbn [filter]. now rewrite IH.
Qed.

End Sorting.

Lemma value_of_entry (board_dict : BoardState) k v :
  NoDup (keys board_dict) -> In (k, v) board_dict -> value board_dict k = v.
Proof.
  intros Hnd Hin. unfold value.
  now rewrite (getitem_of_entry board_dict k v Hnd Hin).
Qed.

(** X16: [sorted_box_possibilities] returns the boxes with more than one
    candidate, each once, in the order of their number of candidates, boxes
    with equally many in the order of the keys; so its first box, the one
    [search] branches on, has the fewest candidates of all open boxes. *)
Theorem sorted_box_possibilities_spec (board_dict : BoardState) :
  NoDup (keys board_dict) ->
  let open := Board.keys_where (fun v => 1 <? length v) board_dict in
  let result := Board.sorted_box_possibilities board_dict in
  Permutation result open /\
  ForallOrdPairs
    (fun k1 k2 => length (value board_dict k1) <= length (value board_dict k2))
    result /\
  (forall n,
     filter (fun k => length (value board_dict k) =? n) result
     = filter (fun k => length (value board_dict k) =? n) open) /\
  (forall box rest, result = box :: rest ->
     forall k, In k open ->
       length (value board_dict box) <= length (value board_dict k)).
Proof.
  intros Hnd open result.
  set (pairs := filter (fun kv : pystr * pystr => 1 <? length (snd kv))
                       board_dict).
  set (klen := fun kv : pystr * pystr => length (snd kv)).
  assert (Hval : forall kv, In kv (sorted klen pairs) ->
                            value board_dict (fst kv) = snd kv).
  { intros [k v] Hin. apply value_of_entry; [assumption|].
    apply (Permutation_in _ (sorted_perm klen pairs)) in Hin.
    apply filter_In in Hin. tauto. }
  assert (Hval' : forall kv, In kv pairs ->
                             value board_dict (fst kv) = snd kv).
  { intros kv Hin. apply Hval.
    apply (Permutation_in _ (Permutation_sym (sorted_perm klen pairs))).
    assumption. }
  assert (HP : Permutation result open).
  { unfold result, open, Board.sorted_box_possibilities, Board.keys_where.
    apply Permutation_map, sorted_perm. }
  assert (HO : ForallOrdPairs
                 (fun k1 k2 => length (value board_dict k1)
                               <= length (value board_dict k2)) result).
  { unfold result, Board.sorted_box_possibilities. fold pairs klen.
    pose proof (sorted_ordered klen pairs) as HS.
    revert Hval. induction HS as [|x l Hx Hl IH]; intros Hval; simpl;
      constructor.
    - rewrite Forall_map. rewrite Forall_forall in *. intros y Hy.
      rewrite (Hval x (or_introl eq_refl)), (Hval y (or_intror Hy)).
      apply (Hx y Hy).
    - apply IH. intros kv Hkv. apply Hval. now right. }
  split; [exact HP|]. split; [exact HO|]. split.
  - intros n. unfold result, open, Board.sorted_box_possibilities,
      Board.keys_where. fold pairs klen.
    assert (Hmf : forall l,
              (forall kv, In kv l -> value board_dict (fst kv) = snd kv) ->
              filter (fun k => length (value board_dict k) =? n) (map fst l)
              = map fst (filter (fun kv => klen kv =? n) l)).
    { induction l as [|x l IH]; intros Hl; [reflexivity|]. simpl.
      rewrite (Hl x (or_introl eq_refl)). unfold klen at 1.
      destruct (length (snd x) =? n); simpl; rewrite IH; auto;
        intros kv Hkv; apply Hl; now right. }
    rewrite (Hmf _ Hval), (Hmf _ Hval'). now rewrite sorted_stable.
  - intros box rest Hres k Hk.
    apply (Permutation_in _ (Permutation_sym HP)) in Hk.
    rewrite Hres in Hk, HO. inversion HO as [|? ? Hfirst _]; subst.
    destruct Hk as [<- | Hk]; [apply Nat.le_refl|].
    rewrite Forall_forall in Hfirst. now apply Hfirst.
Qed.

Lemma sorted_box_possibilities_spec_witness :
  let open := Board.keys_where (fun v => 1 <? length v) easy_board in
  let result := Board.sorted_box_possibilities easy_board in
  Permutation result open /\
  ForallOrdPairs
    (fun k1 k2 => length (value easy_board k1) <= length (value easy_board k2))
    result /\
  (forall n,
     filter (fun k => length (value easy_board k) =? n) result
     = filter (fun k => length (value easy_board k) =? n) open) /\
  (forall box rest, result = box :: rest ->
     forall k, In k open ->
       length (value easy_board box) <= length (value easy_board k)).
Proof.
  apply (sorted_box_possibilities_spec easy_board).
  apply distinct_NoDup. vm_compute. reflexivity.
Defined.

(** * Further properties of the naked-subset reductions *)

Lemma stripped_filter values v :
  stripped values v
  = if chars_subset (char_set v) values then v
    else filter (fun c => negb (chr_mem c values)) v.
Proof.
  unfold stripped.
  destruct (chars_subset (char_set v) values) eqn:E; [reflexivity|].
  destruct (not_subset_witness v values E) as (x & Hx & Hn).
  apply (strip_values_filter values v x Hx Hn).
Qed.

Lemma stripped_short values v : length v <= 1 -> stripped values v = v.
Proof.
  intros Hlen. unfold stripped. destruct (negb _); [|reflexivity].
  unfold Board.strip_values.
  induction values as [|c values IH]; simpl; [reflexivity|].
  destruct (1 <? length v) eqn:E; [|exact IH].
  apply Nat.ltb_lt in E. lia.
Qed.

(** X17: for distinct boxes of the dictionary [_remove_values_in_boxes]
    returns a dictionary with the same keys in which a listed box with a
    candidate outside [values] has lost exactly the characters of [values],
    and every other entry is as it was: a listed box whose candidates are
    all in [values] is skipped. *)
Theorem remove_values_in_boxes_spec board_dict values boxes :
  NoDup boxes ->
  incl boxes (keys board_dict) ->
  exists after,
    Board._remove_values_in_boxes board_dict values boxes = Ok after /\
    keys after = keys board_dict /\
    forall k v, getitem board_dict k = Ok v ->
      getitem after k
      = Ok (if str_mem k boxes && negb (chars_subset (char_set v) values)
            then filter (fun c => negb (chr_mem c values)) v
            else v).
Proof.
  intros Hnd Hin.
  destruct (remove_values_spec values boxes board_dict Hnd Hin)
    as (after & E & K & G).
  exists after. split; [exact E|]. split; [exact K|].
  intros k v Hk. rewrite (G k v Hk), stripped_filter.
  destruct (str_mem k boxes), (chars_subset (char_set v) values);
    reflexivity.
Qed.

Lemma remove_values_in_boxes_spec_witness :
  exists after,
    Board._remove_values_in_boxes pair_and_single_board (py "12") row_A
    = Ok after /\
    keys after = keys pair_and_single_board /\
    forall k v, getitem pair_and_single_board k = Ok v ->
      getitem after k
      = Ok (if str_mem k row_A && negb (chars_subset (char_set v) (py "12"))
            then filter (fun c => negb (chr_mem c (py "12"))) v
            else v).
Proof.
  apply (remove_values_in_boxes_spec pair_and_single_board (py "12") row_A).
  - apply distinct_NoDup. vm_compute. reflexivity.
  - apply set_subset_incl. vm_compute. reflexivity.
Defined.

Lemma for_each_same_body {A S} (f g : S -> A -> result S) :
  (forall a x, f a x = g a x) ->
  forall xs acc, for_each xs f acc = for_each xs g acc.
Proof.
  intros H. induction xs as [|x xs IH]; intros acc; simpl; [reflexivity|].
  rewrite H. destruct (g acc x); simpl; auto.
Qed.

(** X18: [values] is a set, which Python runs through in an order of its
    own.  [_remove_values_in_boxes] returns the same for any two orders of
    the same values, on every dictionary and every list of boxes. *)
Theorem remove_values_in_boxes_any_order board_dict values values' boxes :
  (forall c, In c values <-> In c values') ->
  Board._remove_values_in_boxes board_dict values boxes
  = Board._remove_values_in_boxes board_dict values' boxes.
Proof.
  intros Hsame. unfold Board._remove_values_in_boxes.
  apply for_each_same_body. intros a box.
  destruct (getitem a box) as [new_set| |]; cbn [bind]; try reflexivity.
  assert (E : chars_subset (char_set new_set) values
              = chars_subset (char_set new_set) values').
  { apply eq_iff_eq_true. rewrite !chars_subset_incl.
    split; intros H c Hc; apply Hsame; auto. }
  rewrite <- E.
  destruct (chars_subset (char_set new_set) values) eqn:Es; cbn [negb];
    [reflexivity|].
  cbv zeta.
  rewrite <- (strip_values_any_order values values' new_set Hsame);
    [reflexivity|].
  intros Hi. apply subset_chars in Hi. congruence.
Qed.

Lemma remove_values_in_boxes_any_order_witness :
  Board._remove_values_in_boxes pair_board (py "12") row_A
  = Board._remove_values_in_boxes pair_board (py "21") row_A.
Proof.
  apply (remove_values_in_boxes_any_order pair_board (py "12") (py "21")).
  intros c. simpl. tauto.
Defined.

Section Gentle.

Lemma gently_refl a : gently a a.
Proof. split; [apply keeps_refl | auto]. Qed.

Lemma gently_trans a b c : gently a b -> gently b c -> gently a c.
Proof.
  intros [K1 S1] [K2 S2]. split; [eapply keeps_trans; eauto|].
  intros k v Hk Hlen. apply S2; auto.
Qed.

Lemma cellwise_gently values a a' :
  keys a' = keys a ->
  (forall k v, getitem a k = Ok v ->
     getitem a' k = Ok v \/ getitem a' k = Ok (stripped values v)) ->
  gently a a'.
Proof.
  intros K G. split; [eapply cellwise_keeps; eauto|].
  intros k v Hk Hlen. destruct (G k v Hk) as [H | H]; [assumption|].
  now rewrite (stripped_short values v Hlen) in H.
Qed.

Lemma naked_twins_unit_gently options unit a :
  NoDup unit -> (forall b, In b unit -> In b (keys a)) ->
  exists a', Board.naked_twins_unit options a unit = Ok a' /\ gently a a'.
Proof.
  intros Hnd Hin.
  destruct (naked_twins_unit_spec options unit a Hnd Hin) as (a' & E & K & G).
  exists a'. split; [exact E|].
  apply cellwise_gently with (values := char_set options); [exact K|].
  intros k v Hk. rewrite (G k v Hk). destruct (_ && _); auto.
Qed.

Lemma naked_multi_unit_gently size leader options unit a :
  NoDup unit -> (forall b, In b unit -> In b (keys a)) ->
  exists a',
    Board.naked_multi_unit size leader options a unit = Ok a' /\ gently a a'.
Proof.
  intros Hnd Hin.
  destruct (naked_multi_unit_spec size leader options unit a Hnd Hin)
    as (a' & E & K & G).
  exists a'. split; [exact E|].
  now apply cellwise_gently with (values := options).
Qed.

Lemma gently_board_ok a b : gently a b -> board_ok a = true -> board_ok b = true.
Proof. intros [[N _] _]. now apply narrows_board_ok. Qed.

Lemma units_loop_gently dm (step : BoardState -> Unit -> result BoardState) :
  (forall unit a,
     NoDup unit -> (forall b, In b unit -> In b (keys a)) ->
     exists a', step a unit = Ok a' /\ gently a a') ->
  forall us a,
    board_ok a = true ->
    incl us (Board.all_units dm) ->
    exists a', for_each us step a = Ok a' /\ gently a a'.
Proof.
  intros Hstep us a Hok Hus.
  apply (for_each_inv (fun a' => gently a a')); [apply gently_refl|].
  intros b u Hu Hb.
  destruct (all_units_ok dm u (Hus u Hu)) as (Hnd & Hincl & _).
  destruct (Hstep u b Hnd) as (b' & E & Hb').
  - intros x Hx. apply (board_ok_keys b); [|auto].
    eapply gently_board_ok; eauto.
  - exists b'. split; [exact E|]. eapply gently_trans; eauto.
Qed.

Lemma boxes_loop_gently (step : BoardState -> pystr -> result BoardState) :
  (forall a box,
     board_ok a = true -> In box Board.boxes ->
     exists a', step a box = Ok a' /\ gently a a') ->
  forall bs a,
    board_ok a = true ->
    incl bs Board.boxes ->
    exists a', for_each bs step a = Ok a' /\ gently a a'.
Proof.
  intros Hstep bs a Hok Hbs.
  apply (for_each_inv (fun a' => gently a a')); [apply gently_refl|].
  intros b box Hbox Hb.
  destruct (Hstep b box) as (b' & E & Hb').
  - eapply gently_board_ok; eauto.
  - auto.
  - exists b'. split; [exact E|]. eapply gently_trans; eauto.
Qed.

Lemma naked_twins_gently dm a :
  board_ok a = true ->
  exists a', Board.naked_twins dm a = Ok a' /\ gently a a'.
Proof.
  intros Hok. unfold Board.naked_twins.
  apply boxes_loop_gently; [|assumption | now apply keys_where_boxes].
  intros b box Hb Hbox. unfold Board.naked_twins_box.
  destruct (board_ok_getitem b box Hb Hbox) as (options & ->). cbn [bind].
  destruct (units_in_all_units dm box Hbox) as (us & -> & Hus & _).
  cbn [bind].
  apply (units_loop_gently dm); auto.
  intros unit c. apply naked_twins_unit_gently.
Qed.

Lemma naked_multi_gently dm a size :
  board_ok a = true ->
  exists a', Board.naked_multi dm a size = Ok a' /\ gently a a'.
Proof.
  intros Hok. unfold Board.naked_multi.
  apply boxes_loop_gently; [|assumption | now apply keys_where_boxes].
  intros b box Hb Hbox. unfold Board.naked_multi_box.
  destruct (board_ok_getitem b box Hb Hbox) as (v & ->). cbn [bind].
  destruct (units_in_all_units dm box Hbox) as (us & -> & Hus & _).
  cbn [bind].
  apply (units_loop_gently dm); auto.
  intros unit c. apply naked_multi_unit_gently.
Qed.

Lemma gently_solved a b :
  board_ok a = true -> gently a b ->
  Board.num_solved_boxes a <= Board.num_solved_boxes b.
Proof.
  intros Hok [[[K N] _] S].
  apply (pointwise_solved (fun v v' => length v <= 1 -> v' = v)).
  - intros v v' H Hlen. rewrite H; lia.
  - apply (pointwise_entries (fun v v' => length v <= 1 -> v' = v));
      [now apply board_ok_NoDup | exact K|].
    intros k v Hk. destruct (N k v Hk) as (v' & Hv' & _).
    exists v'. split; [assumption|]. intros Hlen.
    specialize (S k v Hk Hlen). congruence.
Qed.

End Gentle.

(** X19: on a state over the 81 boxes [naked_twins] and [naked_multi], for
    any [size], return a state with the same keys in which no cell has
    gained a candidate, every solved or empty cell is as it was, and the
    number of solved boxes has not gone down. *)
Theorem naked_reductions_narrow dm board_dict size :
  board_ok board_dict = true ->
  (exists after,
     Board.naked_twins dm board_dict = Ok after /\
     narrows board_dict after /\
     (forall k v, getitem board_dict k = Ok v -> length v <= 1 ->
                  getitem after k = Ok v) /\
     Board.num_solved_boxes board_dict <= Board.num_solved_boxes after) /\
  (exists after,
     Board.naked_multi dm board_dict size = Ok after /\
     narrows board_dict after /\
     (forall k v, getitem board_dict k = Ok v -> length v <= 1 ->
                  getitem after k = Ok v) /\
     Board.num_solved_boxes board_dict <= Board.num_solved_boxes after).
Proof.
  intros Hok. split.
  - destruct (naked_twins_gently dm board_dict Hok) as (a' & E & G).
    exists a'. split; [exact E|]. split; [apply G|]. split; [apply G|].
    now apply gently_solved.
  - destruct (naked_multi_gently dm board_dict size Hok) as (a' & E & G).
    exists a'. split; [exact E|]. split; [apply G|]. split; [apply G|].
    now apply gently_solved.
Qed.

Lemma naked_reductions_narrow_witness :
  (exists after,
     Board.naked_twins false pair_and_single_board = Ok after /\
     narrows pair_and_single_board after /\
     (forall k v, getitem pair_and_single_board k = Ok v -> length v <= 1 ->
                  getitem after k = Ok v) /\
     Board.num_solved_boxes pair_and_single_board
     <= Board.num_solved_boxes after) /\
  (exists after,
     Board.naked_multi false pair_and_single_board 3 = Ok after /\
     narrows pair_and_single_board after /\
     (forall k v, getitem pair_and_single_board k = Ok v -> length v <= 1 ->
                  getitem after k = Ok v) /\
     Board.num_solved_boxes pair_and_single_board
     <= Board.num_solved_boxes after).
Proof.
  apply (naked_reductions_narrow false pair_and_single_board 3).
  vm_compute. reflexivity.
Defined.

(** X20: with a [size] of zero or less [naked_multi] returns a state over
    the 81 boxes as it is: the test [len(subsets) == size - 1] cannot
    hold. *)
Theorem naked_multi_nonpositive_size dm board_dict size :
  board_ok board_dict = true ->
  (size <= 0)%Z ->
  Board.naked_multi dm board_dict size = Ok board_dict.
Proof.
  intros Hok Hsize. unfold Board.naked_multi.
  destruct (for_each_inv (fun a => a = board_dict)
              (Board.naked_multi_box dm size)
              (Board.keys_where
                 (fun v => (Z.of_nat (length v) =? size)%Z) board_dict)
              board_dict eq_refl) as (r & E & ->); [|exact E].
  intros a box Hbox ->.
  assert (Hb : In box Board.boxes)
    by exact (keys_where_boxes _ board_dict Hok box Hbox).
  unfold Board.naked_multi_box.
  destruct (board_ok_getitem board_dict box Hok Hb) as (v & ->).
  cbn [bind].
  destruct (units_in_all_units dm box Hb) as (us & -> & Hus & _).
  cbn [bind].
  apply (for_each_inv (fun a => a = board_dict)); [reflexivity|].
  intros a unit Hunit ->.
  destruct (all_units_ok dm unit (Hus unit Hunit)) as (_ & Hincl & _).
  unfold Board.naked_multi_unit.
  match goal with |- context [for_each ?xs ?body ?init] =>
    destruct (for_each_inv (fun _ => True) body xs init I)
      as (subsets & -> & _)
  end.
  { intros acc b Hb' _. apply filter_In in Hb'.
    destruct (board_ok_getitem board_dict b Hok (Hincl b (proj1 Hb')))
      as (w & ->).
    cbn [bind]. destruct (_ && _); eauto. }
  cbn [bind].
  assert (E : (Z.of_nat (length subsets) =? size - 1)%Z = false)
    by (apply Z.eqb_neq; lia).
  rewrite E. eauto.
Qed.

Lemma naked_multi_nonpositive_size_witness :
  Board.naked_multi true pair_board 0 = Ok pair_board.
Proof.
  apply (naked_multi_nonpositive_size true pair_board 0).
  - vm_compute. reflexivity.
  - lia.
Defined.

(** * A finished grid *)

(** A loop whose every turn returns the state it was given returns it. *)
Lemma for_each_fixed {A S} (body : S -> A -> result S) xs acc :
  (forall x, In x xs -> body acc x = Ok acc) ->
  for_each xs body acc = Ok acc.
Proof.
  induction xs as [|x xs IH]; intros H; simpl; [reflexivity|].
  rewrite (H x (or_introl eq_refl)). simpl. apply IH.
  intros y Hy. apply H. now right.
Qed.

Section Finished.

Variable dm : bool.
Variable board_dict : BoardState.
Hypothesis Hok : board_ok board_dict = true.
Hypothesis Hvalid : Board.validate dm board_dict = Ok true.

Lemma setitem_same_value {V} (d : dict V) k v :
  getitem d k = Ok v -> setitem d k v = d.
Proof.
  induction d as [|[k' v'] d IH]; simpl; [discriminate|].
  destruct (str_eqb k k'); [now intros [= ->]|].
  intros H. f_equal. auto.
Qed.

Lemma NoDup_map_inj_in {A B} (f : A -> B) (l : list A) x y :
  NoDup (map f l) -> In x l -> In y l -> f x = f y -> x = y.
Proof.
  induction l as [|a l IH]; simpl; [intros _ []|].
  intros Hnd Hx Hy E. inversion Hnd as [|? ? Hnot Hnd']; subst.
  destruct Hx as [-> | Hx], Hy as [-> | Hy]; auto.
  - exfalso. apply Hnot. rewrite E. now apply in_map.
  - exfalso. apply Hnot. rewrite <- E. now apply in_map.
Qed.

Lemma finished_cell box :
  In box Board.boxes ->
  getitem board_dict box = Ok [cell_char board_dict box].
Proof.
  intros Hb.
  destruct (validate_true_cells dm board_dict Hvalid box Hb) as (c & Hc & _).
  unfold cell_char. now rewrite Hc.
Qed.

Lemma finished_full : fully_assigned board_dict = true.
Proof.
  apply fully_assigned_iff. intros box Hb. rewrite finished_cell; eauto.
Qed.

Lemma finished_unit u :
  In u (Board.all_units dm) -> NoDup (map (cell_char board_dict) u).
Proof.
  intros Hu.
  destruct (validate_units_assigned board_dict finished_full
              (Board.all_units dm)) as (valid & Hv & Hiff).
  { intros w Hw. destruct (all_units_ok dm w Hw) as (_ & H1 & H2). auto. }
  unfold Board.validate in Hvalid.
  assert (valid = true) by congruence. subst valid.
  apply (Permutation_NoDup (Permutation_sym (proj1 Hiff eq_refl u Hu))).
  apply values_NoDup.
Qed.

Lemma finished_peers_differ box ps p :
  In box Board.boxes -> Board.peers dm box = Ok ps -> In p ps ->
  cell_char board_dict p <> cell_char board_dict box.
Proof.
  intros Hb Hps Hp E.
  destruct (proj1 (peers_members dm box) Hb) as (ps' & Hps' & Hmem & _).
  assert (ps' = ps) by congruence. subst ps'.
  destruct (proj1 (Hmem p) Hp) as (Hne & u & Hu & Hbu & Hpu).
  apply Hne.
  apply (NoDup_map_inj_in (cell_char board_dict) u); auto.
  now apply finished_unit.
Qed.

Lemma eliminate_finished : Board.eliminate dm board_dict = Ok board_dict.
Proof.
  rewrite eliminate_is_eliminate_with. unfold eliminate_with.
  apply for_each_fixed. intros box Hbox.
  assert (Hb : In box Board.boxes)
    by exact (keys_where_boxes _ board_dict Hok box Hbox).
  destruct (eliminate_turn_spec (Board.peers dm)) with (a := board_dict)
                                                      (box := box)
    as (a' & digit & ps & E & Hd & Hps & [K _] & G); auto.
  { intros b Hb'. destruct (peers_in_boxes dm b Hb') as (x & ? & ? & ? & _).
    eauto. }
  rewrite E. f_equal.
  apply dict_ext; [exact K | rewrite K; now apply board_ok_NoDup|].
  intros k Hk. rewrite K in Hk.
  assert (Hkb : In k Board.boxes) by now apply (board_ok_keys board_dict k).
  rewrite (G k _ (finished_cell k Hkb)), (finished_cell k Hkb).
  destruct (str_mem k ps) eqn:Ek; [|reflexivity].
  apply str_mem_In in Ek. f_equal.
  rewrite (finished_cell box Hb) in Hd. injection Hd as <-.
  rewrite replace_single. simpl.
  pose proof (finished_peers_differ box ps k Hb Hps Ek) as Hne.
  assert (Ee : Ascii.eqb (cell_char board_dict box) (cell_char board_dict k)
               = false) by (apply Ascii.eqb_neq; congruence).
  now rewrite Ee.
Qed.

Lemma only_choice_finished : Board.only_choice dm board_dict = Ok board_dict.
Proof.
  unfold Board.only_choice.
  apply for_each_fixed. intros unit Hunit.
  destruct (all_units_ok dm unit Hunit) as (_ & Hincl & _).
  apply for_each_fixed. intros number _.
  rewrite (filter_r_ok _
             (fun box => contains (value board_dict box)
                                  (str_of_digit number))).
  2:{ intros x Hx. unfold value. rewrite finished_cell by auto.
      reflexivity. }
  cbn [bind].
  destruct (filter _ unit) as [|box [|? ?]] eqn:Ef; try reflexivity.
  assert (Hbox : In box (filter
                           (fun box => contains (value board_dict box)
                                                (str_of_digit number)) unit))
    by (rewrite Ef; now left).
  apply filter_In in Hbox. destruct Hbox as [Hu Hc].
  unfold value in Hc. rewrite finished_cell in Hc by auto.
  unfold str_of_digit in *. rewrite contains_single in Hc.
  apply chr_mem_In in Hc. destruct Hc as [Hc | []].
  f_equal. apply setitem_same_value.
  rewrite finished_cell by auto. now rewrite Hc.
Qed.

Lemma finished_count : Board.num_solved_boxes board_dict = Board.num_boxes.
Proof.
  apply (solved_count_all board_dict Hok). intros box Hb.
  rewrite finished_cell; eauto.
Qed.

End Finished.

(** X21: a state over the 81 boxes that passes [validate] is a fixpoint of
    the solver: [eliminate] and [only_choice] return it as it is, and
    [search] returns it, with any budget of one or more. *)
Theorem search_accepts_finished_grid dm fuel board_dict :
  board_ok board_dict = true ->
  Board.validate dm board_dict = Ok true ->
  Board.eliminate dm board_dict = Ok board_dict /\
  Board.only_choice dm board_dict = Ok board_dict /\
  Board.search dm (S fuel) board_dict = Ok (Some board_dict).
Proof.
  intros Hok Hv.
  pose proof (eliminate_finished dm board_dict Hok Hv) as He.
  pose proof (only_choice_finished dm board_dict Hv) as Ho.
  pose proof (finished_count dm board_dict Hok Hv) as Hc.
  split; [exact He|]. split; [exact Ho|].
  rewrite search_unfold, reduce_puzzle_unfold. unfold propagate.
  rewrite He. cbn [bind]. rewrite Ho. cbn [bind].
  rewrite Hc, Nat.eqb_refl. cbn [Nat.eqb Board.num_boxes].
  change (Board.num_boxes =? 0) with false. cbv iota.
  cbn [bind]. rewrite Hc, Nat.eqb_refl, Hv. reflexivity.
Qed.

Lemma search_accepts_finished_grid_witness :
  Board.eliminate true diagonal_solved_board = Ok diagonal_solved_board /\
  Board.only_choice true diagonal_solved_board = Ok diagonal_solved_board /\
  Board.search true 1 diagonal_solved_board = Ok (Some diagonal_solved_board).
Proof.
  apply (search_accepts_finished_grid true 0 diagonal_solved_board).
  - vm_compute. reflexivity.
  - vm_compute. reflexivity.
Defined.

(** * Consistent givens *)

Lemma givens_consistent_peer dm board_dict box d ps p :
  givens_consistent dm board_dict = true ->
  getitem board_dict box = Ok [d] ->
  Board.peers dm box = Ok ps -> In p ps ->
  getitem board_dict p <> Ok [d].
Proof.
  unfold givens_consistent. rewrite forallb_forall. intros H Hbox Hps Hp Hpd.
  specialize (H (box, [d]) (getitem_entry _ _ _ Hbox)). simpl in H.
  rewrite Hps in H. rewrite forallb_forall in H. specialize (H p Hp).
  unfold value in H. rewrite Hpd, str_eqb_refl in H. discriminate.
Qed.

(** X22: when no solved box of a state over the 81 boxes has a peer solved
    to the same value, [eliminate] keeps every solved box as it is and
    leaves its value a candidate of none of its peers. *)
Theorem eliminate_consistent_givens dm board_dict :
  board_ok board_dict = true ->
  givens_consistent dm board_dict = true ->
  exists after,
    Board.eliminate dm board_dict = Ok after /\
    forall box d, getitem board_dict box = Ok [d] ->
      getitem after box = Ok [d] /\
      exists ps, Board.peers dm box = Ok ps /\
        forall p v, In p ps -> getitem after p = Ok v -> ~ In d v.
Proof.
  intros Hok Hcons.
  assert (Hpeers : forall b, In b Board.boxes ->
            exists ps, Board.peers dm b = Ok ps /\ incl ps Board.boxes
                       /\ NoDup ps).
  { intros b Hb. destruct (peers_in_boxes dm b Hb) as (ps & H1 & H2 & H3 & _).
    eauto. }
  assert (Hrun : exists after,
             Board.eliminate dm board_dict = Ok after /\
             narrows board_dict after /\
             forall box d, getitem board_dict box = Ok [d] ->
                           getitem after box = Ok [d]).
  { rewrite eliminate_is_eliminate_with. unfold eliminate_with.
    apply (for_each_inv
             (fun a => narrows board_dict a /\
                       forall box d, getitem board_dict box = Ok [d] ->
                                     getitem a box = Ok [d])).
    - split; [apply narrows_refl | auto].
    - intros a b Hb [Hn Hkeep].
      assert (Hoka : board_ok a = true) by (eapply narrows_board_ok; eauto).
      assert (Hbb : In b Board.boxes)
        by exact (keys_where_boxes _ board_dict Hok b Hb).
      destruct (eliminate_turn_spec (Board.peers dm) Hpeers a b Hoka Hbb)
        as (a' & digit & ps & E & Hd & Hps & Hn' & G).
      exists a'. split; [exact E|]. split; [eapply narrows_trans; eauto|].
      intros box d Hbox. rewrite (G box [d] (Hkeep box d Hbox)).
      destruct (str_mem box ps) eqn:Ein; [|reflexivity].
      apply str_mem_In in Ein. f_equal.
      (* [b] is solved in the input, to a value other than [d] *)
      unfold Board.keys_where in Hb. apply in_map_iff in Hb.
      destruct Hb as ([kb vb] & Hfst & Hin). simpl in Hfst. subst kb.
      apply filter_In in Hin. destruct Hin as [Hin Hlen]. simpl in Hlen.
      apply Nat.eqb_eq in Hlen.
      destruct vb as [|c [|? ?]]; try discriminate.
      pose proof (getitem_of_entry board_dict b [c]
                    (board_ok_NoDup _ Hok) Hin) as Hbc.
      assert (digit = [c]) by (rewrite (Hkeep b c Hbc) in Hd; congruence).
      subst digit.
      assert (Hne : c <> d).
      { intros ->.
        exact (givens_consistent_peer dm board_dict b d ps box
                 Hcons Hbc Hps Ein Hbox). }
      rewrite replace_single. simpl.
      apply Ascii.eqb_neq in Hne. now rewrite Hne. }
  destruct Hrun as (after & E & _ & Hkeep).
  exists after. split; [exact E|].
  intros box d Hbox. split; [now apply Hkeep|].
  destruct (eliminate_solved_box dm board_dict box d Hok Hbox)
    as (after' & ps & E' & Hps & [Hempty | [_ Hclean]]).
  - assert (after' = after) by congruence. subst after'.
    rewrite (Hkeep box d Hbox) in Hempty. discriminate.
  - assert (after' = after) by congruence. subst after'.
    exists ps. split; [exact Hps | exact Hclean].
Qed.

Lemma eliminate_consistent_givens_witness :
  exists after,
    Board.eliminate false easy_board = Ok after /\
    forall box d, getitem easy_board box = Ok [d] ->
      getitem after box = Ok [d] /\
      exists ps, Board.peers false box = Ok ps /\
        forall p v, In p ps -> getitem after p = Ok v -> ~ In d v.
Proof.
  apply (eliminate_consistent_givens false easy_board).
  - vm_compute. reflexivity.
  - vm_compute. reflexivity.
Defined.

(** X23: the keys of [cross] come in row-major order: the key at index
    [i * len(y_axis) + j] is the [i]-th character of the first string
    followed by the [j]-th of the second.  For [boxes] this is the order in
    which the codec reads and writes the cells. *)
Theorem cross_row_major (x_axis y_axis : pystr) i j :
  i < length x_axis -> j < length y_axis ->
  nth (i * length y_axis + j) (Board.cross x_axis y_axis) []
  = [nth i x_axis " "%char; nth j y_axis " "%char].
Proof.
  unfold Board.cross. revert i.
  induction x_axis as [|x xs IH]; intros i Hi Hj; simpl in Hi; [lia|].
  cbn [flat_map]. destruct i as [|i].
  - rewrite app_nth1 by now rewrite length_map.
    cbn [Nat.mul Nat.add nth].
    change (@nil ascii) with ((fun y_val => @nil ascii) " "%char) at 1.
    rewrite nth_indep with (d' := (fun y_val => [x; y_val]) " "%char)
      by now rewrite length_map.
    now rewrite (map_nth (fun y_val => [x; y_val])).
  - rewrite app_nth2 by (rewrite length_map; simpl; lia).
    rewrite length_map.
    replace (S i * length y_axis + j - length y_axis)
      with (i * length y_axis + j) by (simpl; lia).
    cbn [nth]. apply IH; [lia | assumption].
Qed.

Lemma cross_row_major_witness :
  nth (3 * length Board._cols + 4) Board.boxes [] = py "D5".
Proof.
  apply (cross_row_major Board._rows Board._cols 3 4); vm_compute; lia.
Defined.
